(** * multiprocessing_scheduler: a sliding-window process scheduler

    A shallow embedding of [multiprocessing_scheduler.py]: the worker wrapper
    [_proc_f], the two execution backends ([multiprocessing.Process] and
    [FakeProcess]) and the scheduling loop of [schedule_workers] with its two
    closures [new_process] and [collect_result].

    The coordinator is sequential; the only nondeterminism of the program is
    the order in which concurrently running workers deliver their envelope.
    It is resolved by an explicit schedule [sched]: at the [n]-th blocking
    receive on an empty queue, [sched n] selects which of the running workers
    completes first.  User functions are total: a hung worker is outside the
    model, and so is a raise that [except Exception] does not catch. *)

From Stdlib Require Import String Ascii.
From Stdlib Require Import List ZArith Lia Bool Arith Permutation.
Import ListNotations.
Local Open Scope string_scope.
Local Open Scope list_scope.
Local Open Scope Z_scope.
Set Warnings "-register-all".

(** ** Python values *)

Inductive pyval : Type :=
| PyNone
| PyInt (n : Z)
| PyStr (s : string)
| PyTuple (xs : list pyval)
| PyDict (kvs : list (string * pyval)).

(** An exception object: its class and its [args] tuple. *)
Record exn : Type := Exn { exc_class : string; exc_args : list pyval }.

(** [e.args += (stacktrace,)] *)
Definition add_args (e : exn) (extra : list pyval) : exn :=
  Exn (exc_class e) (exc_args e ++ extra).

(** What the call of [function] on the unpacked [args] and [kwargs] does: it returns a value, or it
    raises an [Exception] whose traceback [format_tb] renders as [tb]. *)
Inductive call_outcome : Type :=
| Returns (v : pyval)
| Raises (e : exn) (tb : list string).

(** ['\n'.join(lines)] *)
Definition join_lines (lines : list string) : string :=
  String.concat (String "010"%char EmptyString) lines.

(** The dictionary [retdict] of [_proc_f]; its three keys are fixed.
    [exception] is Python's [None] or the two-element list [[e, stacktrace]]. *)
Record retdict : Type := RetDict {
  rd_pid : nat;
  rd_exception : option (exn * string);
  rd_result : pyval
}.

Definition set_result (d : retdict) (v : pyval) : retdict :=
  RetDict (rd_pid d) (rd_exception d) v.
Definition set_exception (d : retdict) (x : exn * string) : retdict :=
  RetDict (rd_pid d) (Some x) (rd_result d).

(** ** The worker wrapper *)

(** Whether a raised object is an instance of [Exception], which
    [except Exception] catches, or of another [BaseException] ([SystemExit],
    [KeyboardInterrupt], [GeneratorExit]), which it does not. *)
Inductive raise_class : Type := AnException | NotAnException.

(** All that a call of the function can do. *)
Inductive call_behaviour : Type :=
| Returning (v : pyval)
| Raising (c : raise_class) (e : exn) (tb : list string).

(** The calls that the scheduler is modelled on raise [Exception]s only. *)
Definition behaviour_of (o : call_outcome) : call_behaviour :=
  match o with
  | Returns v => Returning v
  | Raises e tb => Raising AnException e tb
  end.

(** [_proc_f(function, results_q, pid, args, kwargs)]: the queue is passed in;
    the queue after the [finally] clause is returned, with the error that
    leaves [_proc_f], if one does. *)
Definition _proc_f (function : pyval -> pyval -> call_behaviour)
    (results_q : list retdict) (pid : nat) (args kwargs : pyval)
    : list retdict * option exn :=
  let retdict := RetDict pid None PyNone in
  (* try / except Exception as e *)
  let '(retdict, escaping) :=
    match function args kwargs with
    | Returning v => (set_result retdict v, None)
    | Raising AnException e tb =>
        let stacktrace := join_lines tb in
        (set_exception retdict (e, stacktrace), None)
    | Raising NotAnException e tb => (retdict, Some e)
    end in
  (* finally *)
  let results_q := results_q ++ [retdict] in
  (results_q, escaping).

(** ** Python dictionaries keyed by job identifiers

    [processes] is a [dict]; iteration follows insertion order, so it is an
    association list with unique keys. *)
Module PyDictN.
Section Dict.
Context {V : Type}.

Fixpoint get (d : list (nat * V)) (k : nat) : option V :=
  match d with
  | [] => None
  | (k', v) :: d' => if Nat.eqb k' k then Some v else get d' k
  end.

(** [d[k] = v]: replaces in place, or appends a new key. *)
Fixpoint set (d : list (nat * V)) (k : nat) (v : V) : list (nat * V) :=
  match d with
  | [] => [(k, v)]
  | (k', v') :: d' =>
      if Nat.eqb k' k then (k', v) :: d' else (k', v') :: set d' k v
  end.

(** [del d[k]]; [None] is [KeyError]. *)
Fixpoint del (d : list (nat * V)) (k : nat) : option (list (nat * V)) :=
  match d with
  | [] => None
  | (k', v') :: d' =>
      if Nat.eqb k' k then Some d'
      else match del d' k with
           | Some r => Some ((k', v') :: r)
           | None => None
           end
  end.

Definition keys (d : list (nat * V)) : list nat := map fst d.
End Dict.
End PyDictN.

(** ** Processes, events and the scheduler state *)

(** A [Process] or [FakeProcess] object: [target] is always [_proc_f] and
    [args] is [(function, results_q, pid, args, kwargs)], of which the first
    two components are shared by all handles of one call. *)
Record proc : Type := Proc { p_pid : nat; p_args : pyval; p_kwargs : pyval }.

Inductive event : Type :=
| EvStart (pid : nat)
| EvTerminate (pid : nat)
| EvJoin (pid : nat)
| EvRecv (d : retdict)
| EvProcesses (keys : list nat).

(** The variables of one call of [schedule_workers] that its closures share,
    the workers of the isolated backend that were started and whose envelope
    has not been received, the number of receives so far, and a log: every
    backend call, every received envelope and, after every mutation of
    [processes], its keys.  The model does not tell a worker that still runs
    from one that has ended and put its envelope: the envelope of a worker
    of [running] enters the queue at the receive that returns it. *)
Record state : Type := State {
  processes : list (nat * proc);
  results_q : list retdict;
  results : list pyval;
  running : list proc;
  clock : nat;
  trace : list event
}.

Definition log (ev : event) (st : state) : state :=
  State (processes st) (results_q st) (results st) (running st) (clock st)
        (trace st ++ [ev]).
Definition with_processes (d : list (nat * proc)) (st : state) : state :=
  State d (results_q st) (results st) (running st) (clock st)
        (trace st ++ [EvProcesses (PyDictN.keys d)]).
Definition with_results_q (q : list retdict) (st : state) : state :=
  State (processes st) q (results st) (running st) (clock st) (trace st).
Definition with_results (r : list pyval) (st : state) : state :=
  State (processes st) (results_q st) r (running st) (clock st) (trace st).
Definition with_running (r : list proc) (st : state) : state :=
  State (processes st) (results_q st) (results st) r (clock st) (trace st).
Definition tick (st : state) : state :=
  State (processes st) (results_q st) (results st) (running st) (S (clock st))
        (trace st).

(** How a call of [schedule_workers] ends.  The three ways in which it can
    raise are kept apart: the re-raise of a worker's exception in
    [collect_result], a failed unpacking [args, kwargs = job], and a
    [KeyError] of a subscript of [processes].  [Blocked] is a receive on a
    queue that nothing will ever fill. *)
Inductive outcome : Type :=
| Returned (l : list pyval)
| Propagated (e : exn)
| UnpackError (e : exn)
| KeyError (pid : nat)
| Blocked
| OutOfFuel.

Inductive step : Type :=
| Next (st : state)
| Halt (o : outcome) (st : state).

(** Iteration over a value, as the unpacking assignment performs it. *)
Fixpoint chars (s : string) : list pyval :=
  match s with
  | EmptyString => []
  | String c s' => PyStr (String c EmptyString) :: chars s'
  end.

Definition iter_pyval (v : pyval) : option (list pyval) :=
  match v with
  | PyNone | PyInt _ => None
  | PyStr s => Some (chars s)
  | PyTuple xs => Some xs
  | PyDict kvs => Some (map (fun kv => PyStr (fst kv)) kvs)
  end.

(** [type(v).__name__] *)
Definition type_name (v : pyval) : string :=
  match v with
  | PyNone => "NoneType"
  | PyInt _ => "int"
  | PyStr _ => "str"
  | PyTuple _ => "tuple"
  | PyDict _ => "dict"
  end.

(** [args, kwargs = job] when [with_kwargs], else [args = job] and
    [kwargs = dict()]. *)
Definition unpack_job (with_kwargs : bool) (job : pyval) : exn + (pyval * pyval) :=
  if with_kwargs then
    match iter_pyval job with
    | None =>
        inl (Exn "TypeError"
               [PyStr (String.append "cannot unpack non-iterable "
                         (String.append (type_name job) " object"))])
    | Some [args; kwargs] => inr (args, kwargs)
    | Some (_ :: _ :: _ :: _) =>
        inl (Exn "ValueError" [PyStr "too many values to unpack (expected 2)"])
    | Some [] =>
        inl (Exn "ValueError"
               [PyStr "not enough values to unpack (expected 2, got 0)"])
    | Some [_] =>
        inl (Exn "ValueError"
               [PyStr "not enough values to unpack (expected 2, got 1)"])
    end
  else inr (job, PyDict []).

Section Scheduler.
(** [USE_MULTIPROCESSING]: [true] binds [Process] to
    [multiprocessing.Process], [false] to [FakeProcess]. *)
Context (USE_MULTIPROCESSING : bool).
Context (sched : nat -> nat).
Context (function : pyval -> pyval -> call_outcome).
Context (forward_exceptions : bool).

(** The worker behind a handle runs [_proc_f] on the shared queue. *)
Definition run_target (p : proc) (q : list retdict) : list retdict :=
  fst (_proc_f (fun args kwargs => behaviour_of (function args kwargs))
               q (p_pid p) (p_args p) (p_kwargs p)).

Definition remove_pid (pid : nat) (l : list proc) : list proc :=
  filter (fun p => negb (Nat.eqb (p_pid p) pid)) l.

Definition is_running (pid : nat) (st : state) : bool :=
  existsb (fun p => Nat.eqb (p_pid p) pid) (running st).

(** [proc.start()]: [FakeProcess] calls the target inline; a real process
    starts to run it concurrently. *)
Definition start (p : proc) (st : state) : state :=
  let st := log (EvStart (p_pid p)) st in
  if USE_MULTIPROCESSING
  then with_running (running st ++ [p]) st
  else with_results_q (run_target p (results_q st)) st.

(** [proc.terminate()]: a no-op of [FakeProcess]; a real process that still
    runs is killed and delivers nothing.  A worker of [running] is dropped in
    either case: the envelope that a worker which has already ended left in
    the queue is not kept, as nothing is received after the only
    [terminate] of a worker whose envelope has not been received. *)
Definition terminate (p : proc) (st : state) : state :=
  let st := log (EvTerminate (p_pid p)) st in
  if USE_MULTIPROCESSING
  then with_running (remove_pid (p_pid p) (running st)) st
  else st.

(** [proc.join()]: a no-op of [FakeProcess]; a real process that still runs
    is waited for, so it delivers its envelope first. *)
Definition join (p : proc) (st : state) : state :=
  let st := log (EvJoin (p_pid p)) st in
  if USE_MULTIPROCESSING && is_running (p_pid p) st
  then with_running (remove_pid (p_pid p) (running st))
         (with_results_q (run_target p (results_q st)) st)
  else st.

(** [results_q.get()]: the oldest envelope of the queue; on an empty queue
    the receive waits for the running worker that finishes first, and
    without any it waits forever ([None]). *)
Definition q_get (st : state) : option (retdict * state) :=
  match results_q st with
  | d :: q => Some (d, tick (with_results_q q st))
  | [] =>
      match running st with
      | [] => None
      | p0 :: _ =>
          let i := Nat.modulo (sched (clock st)) (length (running st)) in
          let p := nth i (running st) p0 in
          match run_target p [] with
          | d :: q =>
              Some (d, tick (with_results_q q
                     (with_running (firstn i (running st) ++ skipn (S i) (running st)) st)))
          | [] => None
          end
      end
  end.

(** [new_process(pid, args, kwargs)] *)
Definition new_process (pid : nat) (args kwargs : pyval) (st : state) : state :=
  let new_proc := Proc pid args kwargs in
  let st := start new_proc st in
  with_processes (PyDictN.set (processes st) pid new_proc) st.

(** [for pid, proc in processes.items(): proc.terminate()] *)
Definition terminate_all (st : state) : state :=
  fold_left (fun s kv => terminate (snd kv) s) (processes st) st.

(** The last three statements of [collect_result]:
    [processes[pid].join()], [processes[pid].terminate()] and
    [del processes[pid]]; each subscript can raise [KeyError]. *)
Definition release (pid : nat) (st : state) : step :=
  match PyDictN.get (processes st) pid with
  | None => Halt (KeyError pid) st
  | Some p =>
      let st := join p st in
      match PyDictN.get (processes st) pid with
      | None => Halt (KeyError pid) st
      | Some p =>
          let st := terminate p st in
          match PyDictN.del (processes st) pid with
          | None => Halt (KeyError pid) st
          | Some d => Next (with_processes d st)
          end
      end
  end.

(** [collect_result()] *)
Definition collect_result (st : state) : step :=
  match q_get st with
  | None => Halt Blocked st
  | Some (result, st) =>
      let st := log (EvRecv result) st in
      let r :=
        match rd_exception result with
        | None => Next (with_results (results st ++ [rd_result result]) st)
        | Some (e, stacktrace) =>
            if forward_exceptions then
              let st := terminate_all st in
              Halt (Propagated (add_args e [PyStr stacktrace])) st
            else Next st
        end in
      match r with
      | Halt o st => Halt o st
      | Next st => release (rd_pid result) st
      end
  end.

(** The body of [for pid, job in enumerate(args_list)], from [pid] on. *)
Fixpoint for_jobs (with_kwargs : bool) (max_processes : Z)
    (pid : nat) (jobs : list pyval) (st : state) : step :=
  match jobs with
  | [] => Next st
  | job :: rest =>
      match unpack_job with_kwargs job with
      | inl e => Halt (UnpackError e) st
      | inr (args, kwargs) =>
          let r := if Z.of_nat (length (processes st)) >=? max_processes
                   then collect_result st else Next st in
          match r with
          | Halt o st' => Halt o st'
          | Next st' =>
              for_jobs with_kwargs max_processes (S pid) rest
                       (new_process pid args kwargs st')
          end
      end
  end.

(** [while len(processes) > 0: collect_result()].  [fuel] bounds the number of
    iterations; the length of [processes] is enough, since every iteration
    that comes back has deleted one key. *)
Fixpoint drain (fuel : nat) (st : state) : step :=
  match processes st with
  | [] => Next st
  | _ :: _ =>
      match fuel with
      | O => Halt OutOfFuel st
      | S fuel' =>
          match collect_result st with
          | Halt o st' => Halt o st'
          | Next st' => drain fuel' st'
          end
      end
  end.

Definition initial_state : state := State [] [] [] [] 0%nat [].

(** [schedule_workers(function, args_list, with_kwargs, max_processes,
    forward_exceptions)]: the way the call ends and the last state. *)
Definition schedule_workers (args_list : list pyval) (with_kwargs : bool)
    (max_processes : Z) : outcome * state :=
  match for_jobs with_kwargs max_processes 0%nat args_list initial_state with
  | Halt o st => (o, st)
  | Next st =>
      match drain (length (processes st)) st with
      | Halt o st' => (o, st')
      | Next st' => (Returned (results st'), st')
      end
  end.
End Scheduler.

(** ** Reading the log *)

Definition received (tr : list event) : list retdict :=
  flat_map (fun ev => match ev with EvRecv d => [d] | _ => [] end) tr.
Definition started_pids (tr : list event) : list nat :=
  flat_map (fun ev => match ev with EvStart pid => [pid] | _ => [] end) tr.
Definition joined_pids (tr : list event) : list nat :=
  flat_map (fun ev => match ev with EvJoin pid => [pid] | _ => [] end) tr.
Definition snapshots (tr : list event) : list (list nat) :=
  flat_map (fun ev => match ev with EvProcesses ks => [ks] | _ => [] end) tr.

(** An envelope is a success when the test [not result['exception']] of
    [collect_result] holds. *)
Definition is_success (d : retdict) : bool :=
  match rd_exception d with None => true | Some _ => false end.

(** The envelope that a worker delivers for an outcome of the function. *)
Definition envelope_for (pid : nat) (o : call_outcome) : retdict :=
  match o with
  | Returns v => RetDict pid None v
  | Raises e tb => RetDict pid (Some (e, join_lines tb)) PyNone
  end.

Definition envelope_of (function : pyval -> pyval -> call_outcome) (p : proc) : retdict :=
  envelope_for (p_pid p) (function (p_args p) (p_kwargs p)).

(** Every envelope that is on its way: queued, or owed by a running worker. *)
Definition pending (function : pyval -> pyval -> call_outcome) (st : state) : list retdict :=
  results_q st ++ map (envelope_of function) (running st).

(** The handles that the loop creates for the jobs that unpack, from
    identifier [pid] on. *)
Fixpoint job_procs (with_kwargs : bool) (pid : nat) (jobs : list pyval) : list proc :=
  match jobs with
  | [] => []
  | job :: rest =>
      match unpack_job with_kwargs job with
      | inl _ => []
      | inr (args, kwargs) => Proc pid args kwargs :: job_procs with_kwargs (S pid) rest
      end
  end.

(** A job is well formed when it unpacks, and yields the outcome of the
    function on what it unpacks to. *)
Definition job_yields (function : pyval -> pyval -> call_outcome) (with_kwargs : bool)
    (job : pyval) (o : call_outcome) : Prop :=
  exists args kwargs,
    unpack_job with_kwargs job = inr (args, kwargs) /\ function args kwargs = o.

Definition job_returns (function : pyval -> pyval -> call_outcome) (with_kwargs : bool)
    (job : pyval) (v : pyval) : Prop :=
  job_yields function with_kwargs job (Returns v).

(** The envelopes of jobs numbered from [pid] on, given their outcomes. *)
Fixpoint envelopes_from (pid : nat) (outs : list call_outcome) : list retdict :=
  match outs with
  | [] => []
  | o :: rest => envelope_for pid o :: envelopes_from (S pid) rest
  end.

Definition returned_values (outs : list call_outcome) : list pyval :=
  flat_map (fun o => match o with Returns v => [v] | Raises _ _ => [] end) outs.

Definition raised (o : call_outcome) : Prop :=
  match o with Returns _ => False | Raises _ _ => True end.

(** Whether a call returns, raises or blocks. *)
Inductive kind : Type := KReturns | KRaises | KBlocks | KNone.

Definition kind_of (o : outcome) : kind :=
  match o with
  | Returned _ => KReturns
  | Propagated _ | UnpackError _ | KeyError _ => KRaises
  | Blocked => KBlocks
  | OutOfFuel => KNone
  end.

(** ** The functions and jobs of the test suite *)

(** [return_args] and [return_all], called on a tuple of arguments and a
    dictionary of keyword arguments; [crash]. *)
Definition return_args (args kwargs : pyval) : call_outcome := Returns args.
Definition return_all (args kwargs : pyval) : call_outcome :=
  Returns (PyTuple [args; kwargs]).
Definition crash (args kwargs : pyval) : call_outcome :=
  Raises (Exn "CrashException" [PyStr "ouch!"])
         ["  File test_multiprocessing_scheduler.py, line 45, in crash"].

(** A function that ends with [sys.exit(1)]. *)
Definition exits (args kwargs : pyval) : call_behaviour :=
  Raising NotAnException (Exn "SystemExit" [PyInt 1])
          ["  File job.py, line 3, in exits"].

(** A function that raises on the argument tuple [(n,)] and returns its
    arguments otherwise. *)
Definition crash_on (n : Z) (args kwargs : pyval) : call_outcome :=
  match args with
  | PyTuple [PyInt m] => if m =? n then crash args kwargs else Returns args
  | _ => Returns args
  end.

(** [list(zip(range(n)))] *)
Definition zip_range (n : nat) : list pyval :=
  map (fun i => PyTuple [PyInt (Z.of_nat i)]) (seq 0 n).

(** Schedules: the worker started first finishes first, or the one started
    last does. *)
Definition fifo (n : nat) : nat := 0%nat.
Definition lifo (n : nat) : nat := 1%nat.

(** ** Invariants of the scheduling loop *)

(** The active-worker map and the pending envelopes name the same jobs. *)
Definition in_sync (function : pyval -> pyval -> call_outcome) (st : state) : Prop :=
  NoDup (map rd_pid (pending function st)) /\
  Permutation (PyDictN.keys (processes st)) (map rd_pid (pending function st)) /\
  (forall k p, In (k, p) (processes st) -> p_pid p = k).

(** Replaying a log from the keys [ks]: every received envelope names a key
    that [processes] has at that moment. *)
Fixpoint recv_ok (ks : list nat) (tr : list event) : Prop :=
  match tr with
  | [] => True
  | EvProcesses ks' :: tr' => recv_ok ks' tr'
  | EvRecv d :: tr' => In (rd_pid d) ks /\ recv_ok ks tr'
  | _ :: tr' => recv_ok ks tr'
  end.

Definition unpackable (with_kwargs : bool) (job : pyval) : Prop :=
  exists args kwargs, unpack_job with_kwargs job = inr (args, kwargs).

(** What holds between two statements of the loop, once the handles
    [started] have been created. *)
Record Inv (function : pyval -> pyval -> call_outcome) (forward_exceptions : bool)
    (max_processes : Z) (started : list proc) (st : state) : Prop := {
  inv_ids : map p_pid started = seq 0 (length started);
  inv_all : Permutation (received (trace st) ++ pending function st)
                        (map (envelope_of function) started);
  inv_keys : Permutation (PyDictN.keys (processes st))
                         (map rd_pid (pending function st));
  inv_handles : forall k p, In (k, p) (processes st) -> p_pid p = k;
  inv_results : results st = map rd_result (filter is_success (received (trace st)));
  inv_forward : forward_exceptions = true ->
                Forall (fun d => is_success d = true) (received (trace st));
  inv_started : started_pids (trace st) = map p_pid started;
  inv_joined : forall pid, In pid (joined_pids (trace st)) ->
                           In pid (map rd_pid (received (trace st)));
  inv_bound : 1 <= max_processes ->
              Z.of_nat (length (processes st)) <= max_processes /\
              Forall (fun ks => Z.of_nat (length ks) <= max_processes)
                     (snapshots (trace st));
  inv_order : max_processes = 1 ->
              received (trace st) ++ pending function st
              = map (envelope_of function) started;
  inv_recv : recv_ok [] (trace st);
  inv_last : last (snapshots (trace st)) [] = PyDictN.keys (processes st)
}.

(** How a call that does not return has stopped: in the state [st0], [Inv]
    still held for the handles [started0] created so far. *)
Definition stopped (sched : nat -> nat) (function : pyval -> pyval -> call_outcome)
    (USE_MULTIPROCESSING forward_exceptions with_kwargs : bool) (max_processes : Z)
    (all : list proc) (jobs : list pyval) (o : outcome) (st' : state) : Prop :=
  exists started0 st0,
    Inv function forward_exceptions max_processes started0 st0 /\
    (exists rest, all = started0 ++ rest) /\
    match o with
    | UnpackError e => st' = st0 /\ ~ Forall (unpackable with_kwargs) jobs
    | Blocked => st' = st0 /\ max_processes <= 0 /\ processes st0 = []
    | Propagated e' =>
        forward_exceptions = true /\
        exists d st1 e tb,
          q_get sched function st0 = Some (d, st1) /\
          In d (pending function st0) /\
          rd_exception d = Some (e, tb) /\
          e' = add_args e [PyStr tb] /\
          st' = terminate_all USE_MULTIPROCESSING (log (EvRecv d) st1)
    | _ => False
    end.

(** A state of a call under [FakeProcess] and one under the isolated backend
    that differ only in where the envelopes wait: in the queue, or with the
    workers that still run. *)
Definition serialises (function : pyval -> pyval -> call_outcome)
    (stF stR : state) : Prop :=
  processes stF = processes stR /\ results stF = results stR /\
  trace stF = trace stR /\
  running stF = [] /\ results_q stR = [] /\
  results_q stF = map (envelope_of function) (running stR).

(** Two states in which the scheduler has seen and done the same. *)
Definition same_observations (stF stR : state) : Prop :=
  processes stF = processes stR /\ results stF = results stR /\
  trace stF = trace stR.

(** ** Further readings of the log and of the way a call ends *)

Definition terminated_pids (tr : list event) : list nat :=
  flat_map (fun ev => match ev with EvTerminate pid => [pid] | _ => [] end) tr.

(** Replaying a log: every [join], and with [check_terminate] every
    [terminate] too, is called on the handle of a worker whose envelope was
    received before ([seen] holds the jobs named by the envelopes so far). *)
Fixpoint released_after_receipt (check_terminate : bool) (seen : list nat)
    (tr : list event) : Prop :=
  match tr with
  | [] => True
  | EvRecv d :: tr' => released_after_receipt check_terminate (rd_pid d :: seen) tr'
  | EvJoin pid :: tr' =>
      In pid seen /\ released_after_receipt check_terminate seen tr'
  | EvTerminate pid :: tr' =>
      (check_terminate = true -> In pid seen) /\
      released_after_receipt check_terminate seen tr'
  | _ :: tr' => released_after_receipt check_terminate seen tr'
  end.

(** How a call has ended, for invariants [P] and [Q] of one's own, [P] of the
    first loop and [Q] of both: [st0] is the state in which the last statement
    started, [started0] the handles created until then. *)
Definition ended (sched : nat -> nat) (function : pyval -> pyval -> call_outcome)
    (USE_MULTIPROCESSING forward_exceptions with_kwargs : bool) (max_processes : Z)
    (P Q : list proc -> state -> Prop)
    (jobs : list pyval) (o : outcome) (st' : state) : Prop :=
  exists started0 st0,
    Inv function forward_exceptions max_processes started0 st0 /\
    Q started0 st0 /\
    (exists rest, job_procs with_kwargs 0 jobs = started0 ++ rest) /\
    match o with
    | Returned l =>
        st' = st0 /\ started0 = job_procs with_kwargs 0 jobs /\
        length started0 = length jobs /\ processes st0 = [] /\ l = results st0
    | UnpackError e =>
        st' = st0 /\ started0 = job_procs with_kwargs 0 jobs /\
        P started0 st0 /\
        exists job, nth_error jobs (length started0) = Some job /\
                    unpack_job with_kwargs job = inl e
    | Blocked => st' = st0 /\ max_processes <= 0 /\ processes st0 = []
    | Propagated e' =>
        forward_exceptions = true /\
        exists d st1 e tb,
          q_get sched function st0 = Some (d, st1) /\
          In d (pending function st0) /\
          rd_exception d = Some (e, tb) /\
          e' = add_args e [PyStr tb] /\
          st' = terminate_all USE_MULTIPROCESSING (log (EvRecv d) st1)
    | _ => False
    end.

(** The handles joined and the handles asked to terminate are those of the
    envelopes received, in that order, each after its envelope. *)
Definition release_log_inv (started : list proc) (st : state) : Prop :=
  joined_pids (trace st) = map rd_pid (received (trace st)) /\
  terminated_pids (trace st) = map rd_pid (received (trace st)) /\
  released_after_receipt true [] (trace st).

(** No worker runs on its own, and the envelopes received and queued are
    those of the handles created, in their order. *)
Definition fake_order_inv (function : pyval -> pyval -> call_outcome)
    (started : list proc) (st : state) : Prop :=
  running st = [] /\
  received (trace st) ++ results_q st = map (envelope_of function) started.

Definition no_inv (started : list proc) (st : state) : Prop := True.

(** The sizes of [processes] after each of its mutations, while [k] jobs are
    admitted under a window of [m]: the window fills up, then every
    admission comes after a collection. *)
Fixpoint fill_sizes (m k : nat) : list nat :=
  match k with
  | O => []
  | S k' => fill_sizes m k' ++ (if Nat.ltb k' m then [S k'] else [m - 1; m])%nat
  end.

(** [a - 1], [a - 2], ..., [a - j]. *)
Definition countdown (a j : nat) : list nat :=
  map (fun i => (a - S i)%nat) (seq 0 j).

(** The sizes of [processes] during a call that returns on [n] jobs. *)
Definition window_sizes (m n : nat) : list nat :=
  fill_sizes m n ++ countdown (Nat.min n m) (Nat.min n m).

Definition sizes (st : state) : list nat :=
  map (@length nat) (snapshots (trace st)).

(** At the head of the first loop the window is as full as can be. *)
Definition window_head_inv (max_processes : Z) (started : list proc) (st : state)
    : Prop :=
  sizes st = fill_sizes (Z.to_nat max_processes) (length started) /\
  length (processes st) = Nat.min (length started) (Z.to_nat max_processes).

(** Afterwards it has been emptied by [j] collections. *)
Definition window_drain_inv (max_processes : Z) (started : list proc) (st : state)
    : Prop :=
  exists j,
    (j <= Nat.min (length started) (Z.to_nat max_processes))%nat /\
    length (processes st)
    = (Nat.min (length started) (Z.to_nat max_processes) - j)%nat /\
    sizes st = fill_sizes (Z.to_nat max_processes) (length started)
               ++ countdown (Nat.min (length started) (Z.to_nat max_processes)) j.

(** ** [fair_scheduler.py]

    The older module of the repository: the same scheduler, always on
    [multiprocessing.Process], whose worker wrapper stores the error object
    alone and whose [collect_result] re-raises it as it is.  Its test
    [not result['exception']] is on the error object itself, so the truth
    value [truthy] of error objects matters: an object is true unless its
    class defines [__bool__] or [__len__] otherwise. *)

Module FairScheduler.

(** [retdict]: here [exception] is [None] or the error object. *)
Record retdict : Type := RetDict {
  rd_pid : nat;
  rd_exception : option exn;
  rd_result : pyval
}.

Definition set_result (d : retdict) (v : pyval) : retdict :=
  RetDict (rd_pid d) (rd_exception d) v.
Definition set_exception (d : retdict) (e : exn) : retdict :=
  RetDict (rd_pid d) (Some e) (rd_result d).

(** [_proc_f(function, results_q, pid, args, kwargs)] *)
Definition _proc_f (function : pyval -> pyval -> call_outcome)
    (results_q : list retdict) (pid : nat) (args kwargs : pyval) : list retdict :=
  let retdict := RetDict pid None PyNone in
  let retdict :=
    match function args kwargs with
    | Returns v => set_result retdict v
    | Raises e _ => set_exception retdict e
    end in
  results_q ++ [retdict].

Inductive event : Type :=
| EvStart (pid : nat)
| EvTerminate (pid : nat)
| EvJoin (pid : nat)
| EvRecv (d : retdict)
| EvProcesses (keys : list nat).

Record state : Type := State {
  processes : list (nat * proc);
  results_q : list retdict;
  results : list pyval;
  running : list proc;
  clock : nat;
  trace : list event
}.

Definition log (ev : event) (st : state) : state :=
  State (processes st) (results_q st) (results st) (running st) (clock st)
        (trace st ++ [ev]).
Definition with_processes (d : list (nat * proc)) (st : state) : state :=
  State d (results_q st) (results st) (running st) (clock st)
        (trace st ++ [EvProcesses (PyDictN.keys d)]).
Definition with_results_q (q : list retdict) (st : state) : state :=
  State (processes st) q (results st) (running st) (clock st) (trace st).
Definition with_results (r : list pyval) (st : state) : state :=
  State (processes st) (results_q st) r (running st) (clock st) (trace st).
Definition with_running (r : list proc) (st : state) : state :=
  State (processes st) (results_q st) (results st) r (clock st) (trace st).
Definition tick (st : state) : state :=
  State (processes st) (results_q st) (results st) (running st) (S (clock st))
        (trace st).

Inductive step : Type :=
| Next (st : state)
| Halt (o : outcome) (st : state).

Section Scheduler.
Context (truthy : exn -> bool).
Context (sched : nat -> nat).
Context (function : pyval -> pyval -> call_outcome).
Context (forward_exceptions : bool).

Definition run_target (p : proc) (q : list retdict) : list retdict :=
  _proc_f function q (p_pid p) (p_args p) (p_kwargs p).

Definition remove_pid (pid : nat) (l : list proc) : list proc :=
  filter (fun p => negb (Nat.eqb (p_pid p) pid)) l.

Definition is_running (pid : nat) (st : state) : bool :=
  existsb (fun p => Nat.eqb (p_pid p) pid) (running st).

(** [mp.Process.start()] *)
Definition start (p : proc) (st : state) : state :=
  let st := log (EvStart (p_pid p)) st in
  with_running (running st ++ [p]) st.

(** [mp.Process.terminate()] *)
Definition terminate (p : proc) (st : state) : state :=
  let st := log (EvTerminate (p_pid p)) st in
  with_running (remove_pid (p_pid p) (running st)) st.

(** [mp.Process.join()] *)
Definition join (p : proc) (st : state) : state :=
  let st := log (EvJoin (p_pid p)) st in
  if is_running (p_pid p) st
  then with_running (remove_pid (p_pid p) (running st))
         (with_results_q (run_target p (results_q st)) st)
  else st.

(** [results_q.get()] *)
Definition q_get (st : state) : option (retdict * state) :=
  match results_q st with
  | d :: q => Some (d, tick (with_results_q q st))
  | [] =>
      match running st with
      | [] => None
      | p0 :: _ =>
          let i := Nat.modulo (sched (clock st)) (length (running st)) in
          let p := nth i (running st) p0 in
          match run_target p [] with
          | d :: q =>
              Some (d, tick (with_results_q q
                     (with_running (firstn i (running st) ++ skipn (S i) (running st)) st)))
          | [] => None
          end
      end
  end.

(** [new_process(pid, args, kwargs)] *)
Definition new_process (pid : nat) (args kwargs : pyval) (st : state) : state :=
  let new_proc := Proc pid args kwargs in
  let st := start new_proc st in
  with_processes (PyDictN.set (processes st) pid new_proc) st.

(** [for pid, proc in processes.items(): proc.terminate()] *)
Definition terminate_all (st : state) : state :=
  fold_left (fun s kv => terminate (snd kv) s) (processes st) st.

(** The last three statements of [collect_result]. *)
Definition release (pid : nat) (st : state) : step :=
  match PyDictN.get (processes st) pid with
  | None => Halt (KeyError pid) st
  | Some p =>
      let st := join p st in
      match PyDictN.get (processes st) pid with
      | None => Halt (KeyError pid) st
      | Some p =>
          let st := terminate p st in
          match PyDictN.del (processes st) pid with
          | None => Halt (KeyError pid) st
          | Some d => Next (with_processes d st)
          end
      end
  end.

(** [collect_result()]: [if not result['exception']], which holds of [None]
    and of an error object that is not true, and [raise result['exception']] *)
Definition collect_result (st : state) : step :=
  match q_get st with
  | None => Halt Blocked st
  | Some (result, st) =>
      let st := log (EvRecv result) st in
      let r :=
        match rd_exception result with
        | None => Next (with_results (results st ++ [rd_result result]) st)
        | Some e =>
            if negb (truthy e)
            then Next (with_results (results st ++ [rd_result result]) st)
            else
              if forward_exceptions then
                let st := terminate_all st in
                Halt (Propagated e) st
              else Next st
        end in
      match r with
      | Halt o st => Halt o st
      | Next st => release (rd_pid result) st
      end
  end.

Fixpoint for_jobs (with_kwargs : bool) (max_processes : Z)
    (pid : nat) (jobs : list pyval) (st : state) : step :=
  match jobs with
  | [] => Next st
  | job :: rest =>
      match unpack_job with_kwargs job with
      | inl e => Halt (UnpackError e) st
      | inr (args, kwargs) =>
          let r := if Z.of_nat (length (processes st)) >=? max_processes
                   then collect_result st else Next st in
          match r with
          | Halt o st' => Halt o st'
          | Next st' =>
              for_jobs with_kwargs max_processes (S pid) rest
                       (new_process pid args kwargs st')
          end
      end
  end.

Fixpoint drain (fuel : nat) (st : state) : step :=
  match processes st with
  | [] => Next st
  | _ :: _ =>
      match fuel with
      | O => Halt OutOfFuel st
      | S fuel' =>
          match collect_result st with
          | Halt o st' => Halt o st'
          | Next st' => drain fuel' st'
          end
      end
  end.

Definition initial_state : state := State [] [] [] [] 0%nat [].

(** [fair_scheduler.schedule_workers] *)
Definition schedule_workers (args_list : list pyval) (with_kwargs : bool)
    (max_processes : Z) : outcome * state :=
  match for_jobs with_kwargs max_processes 0%nat args_list initial_state with
  | Halt o st => (o, st)
  | Next st =>
      match drain (length (processes st)) st with
      | Halt o st' => (o, st')
      | Next st' => (Returned (results st'), st')
      end
  end.
End Scheduler.
End FairScheduler.

(** An envelope, an event and an outcome of [multiprocessing_scheduler]
    without the stack trace. *)
Definition strip (d : retdict) : FairScheduler.retdict :=
  FairScheduler.RetDict (rd_pid d)
    (match rd_exception d with Some (e, _) => Some e | None => None end)
    (rd_result d).

Definition strip_event (ev : event) : FairScheduler.event :=
  match ev with
  | EvStart pid => FairScheduler.EvStart pid
  | EvTerminate pid => FairScheduler.EvTerminate pid
  | EvJoin pid => FairScheduler.EvJoin pid
  | EvRecv d => FairScheduler.EvRecv (strip d)
  | EvProcesses ks => FairScheduler.EvProcesses ks
  end.

Definition strip_state (st : state) : FairScheduler.state :=
  FairScheduler.State (processes st) (map strip (results_q st)) (results st)
    (running st) (clock st) (map strip_event (trace st)).

(** The error of an envelope, if it has one, is a true object. *)
Definition envelope_truthy (truthy : exn -> bool) (d : retdict) : Prop :=
  forall e tb, rd_exception d = Some (e, tb) -> truthy e = true.

Definition queue_truthy (truthy : exn -> bool) (st : state) : Prop :=
  Forall (envelope_truthy truthy) (results_q st).

(** Every error that the function raises is a true object. *)
Definition errors_truthy (truthy : exn -> bool)
    (function : pyval -> pyval -> call_outcome) : Prop :=
  forall args kwargs e tb, function args kwargs = Raises e tb -> truthy e = true.

(** The two modules end alike: the same list, the same error up to the stack
    trace that [multiprocessing_scheduler] appends to its [args]. *)
Definition outcomes_agree (o : outcome) (o_fair : outcome) : Prop :=
  match o, o_fair with
  | Returned l, Returned l' => l = l'
  | Propagated e', Propagated e => exists tb, e' = add_args e [PyStr tb]
  | UnpackError e, UnpackError e' => e = e'
  | KeyError pid, KeyError pid' => pid = pid'
  | Blocked, Blocked => True
  | OutOfFuel, OutOfFuel => True
  | _, _ => False
  end.

Definition strip_step (s : step) : FairScheduler.step :=
  match s with
  | Next st => FairScheduler.Next (strip_state st)
  | Halt o st => FairScheduler.Halt o (strip_state st)
  end.

Definition steps_agree (s : step) (s_fair : FairScheduler.step) : Prop :=
  match s, s_fair with
  | Next st, FairScheduler.Next st' => st' = strip_state st
  | Halt o st, FairScheduler.Halt o' st' =>
      outcomes_agree o o' /\ st' = strip_state st
  | _, _ => False
  end.

(** ** Dictionaries *)

Module PyDictFacts.
Import PyDictN.
Section Facts.
Context {V : Type}.
Implicit Types (d : list (nat * V)) (k : nat) (v : V).

Lemma get_In d k v : get d k = Some v -> In (k, v) d.
Proof.
  induction d as [|[k' v'] d IH]; simpl; [discriminate|].
  destruct (Nat.eqb_spec k' k) as [->|Hne]; intros H.
  - injection H as ->. now left.
  - right. now apply IH.
Qed.

Lemma in_keys_get d k : In k (keys d) -> exists v, get d k = Some v.
Proof.
  induction d as [|[k' v'] d IH]; simpl; [tauto|].
  destruct (Nat.eqb_spec k' k) as [->|Hne]; intros H.
  - now exists v'.
  - destruct H as [H|H]; [contradiction|]. now apply IH.
Qed.

Lemma get_del d k v : get d k = Some v -> exists d', del d k = Some d'.
Proof.
  induction d as [|[k' v'] d IH]; simpl; [discriminate|].
  destruct (Nat.eqb_spec k' k) as [->|Hne]; intros H.
  - now exists d.
  - destruct (IH H) as [d' ->]. now eexists.
Qed.

Lemma del_split d k d' :
  del d k = Some d' ->
  exists l1 x l2, d = l1 ++ (k, x) :: l2 /\ d' = l1 ++ l2.
Proof.
  revert d'. induction d as [|[k' v'] d IH]; simpl; intros d'; [discriminate|].
  destruct (Nat.eqb_spec k' k) as [->|Hne]; intros H.
  - injection H as <-. now exists [], v', d.
  - destruct (del d k) as [r|] eqn:E; [|discriminate].
    injection H as <-. destruct (IH r eq_refl) as (l1 & x & l2 & -> & ->).
    now exists ((k', v') :: l1), x, l2.
Qed.

Lemma del_length d k d' : del d k = Some d' -> length d = S (length d').
Proof.
  intros H. destruct (del_split _ _ _ H) as (l1 & x & l2 & -> & ->).
  rewrite !length_app. simpl. lia.
Qed.

Lemma del_keys d k d' : del d k = Some d' -> Permutation (keys d) (k :: keys d').
Proof.
  intros H. destruct (del_split _ _ _ H) as (l1 & x & l2 & -> & ->).
  unfold keys. rewrite !map_app. simpl. symmetry. apply Permutation_middle.
Qed.

Lemma del_In d k d' kv : del d k = Some d' -> In kv d' -> In kv d.
Proof.
  intros H. destruct (del_split _ _ _ H) as (l1 & x & l2 & -> & ->).
  rewrite !in_app_iff. simpl. tauto.
Qed.

Lemma set_fresh d k v : ~ In k (keys d) -> set d k v = d ++ [(k, v)].
Proof.
  induction d as [|[k' v'] d IH]; simpl; [reflexivity|].
  destruct (Nat.eqb_spec k' k) as [->|Hne]; intros H.
  - exfalso. apply H. now left.
  - rewrite IH; [reflexivity|]. intros Hin. apply H. now right.
Qed.

Lemma set_length d k v : (length (set d k v) <= S (length d))%nat.
Proof.
  induction d as [|[k' v'] d IH]; simpl; [lia|].
  destruct (Nat.eqb k' k); simpl; lia.
Qed.
End Facts.
End PyDictFacts.

(** ** The backends and the result channel *)

Lemma nth_firstn_skipn {A : Type} (l : list A) (i : nat) (x : A) :
  (i < length l)%nat -> l = firstn i l ++ nth i l x :: skipn (S i) l.
Proof.
  revert i. induction l as [|a l IH]; intros [|i] H; simpl in *; try lia.
  - reflexivity.
  - f_equal. apply IH. lia.
Qed.

Lemma received_app tr1 tr2 : received (tr1 ++ tr2) = received tr1 ++ received tr2.
Proof. apply flat_map_app. Qed.
Lemma started_pids_app tr1 tr2 :
  started_pids (tr1 ++ tr2) = started_pids tr1 ++ started_pids tr2.
Proof. apply flat_map_app. Qed.
Lemma joined_pids_app tr1 tr2 :
  joined_pids (tr1 ++ tr2) = joined_pids tr1 ++ joined_pids tr2.
Proof. apply flat_map_app. Qed.
Lemma snapshots_app tr1 tr2 : snapshots (tr1 ++ tr2) = snapshots tr1 ++ snapshots tr2.
Proof. apply flat_map_app. Qed.

Lemma rd_pid_envelope_of function p : rd_pid (envelope_of function p) = p_pid p.
Proof. unfold envelope_of, envelope_for. now destruct (function _ _). Qed.

Lemma map_rd_pid_envelope_of function l :
  map rd_pid (map (envelope_of function) l) = map p_pid l.
Proof.
  rewrite map_map. apply map_ext. intros p. apply rd_pid_envelope_of.
Qed.

Section Backend.
Context (USE_MULTIPROCESSING : bool).
Context (sched : nat -> nat).
Context (function : pyval -> pyval -> call_outcome).
Context (forward_exceptions : bool).

Local Abbreviation pend := (pending function).
Local Abbreviation env := (envelope_of function).

Lemma run_target_put p q : run_target function p q = q ++ [env p].
Proof.
  unfold run_target, _proc_f, envelope_of, envelope_for, behaviour_of.
  now destruct (function _ _).
Qed.

Lemma remove_pid_notin pid l : ~ In pid (map p_pid l) -> remove_pid pid l = l.
Proof.
  induction l as [|p l IH]; simpl; intros H; [reflexivity|].
  destruct (Nat.eqb_spec (p_pid p) pid) as [E|E]; simpl.
  - exfalso. apply H. now left.
  - f_equal. apply IH. intros Hin. apply H. now right.
Qed.

Lemma is_running_notin pid st :
  ~ In pid (map p_pid (running st)) -> is_running pid st = false.
Proof.
  unfold is_running. induction (running st) as [|p l IH]; simpl; intros H.
  - reflexivity.
  - destruct (Nat.eqb_spec (p_pid p) pid) as [E|E]; simpl.
    + exfalso. apply H. now left.
    + apply IH. intros Hin. apply H. now right.
Qed.

(** The receive blocks forever exactly when nothing is pending. *)
Lemma q_get_None st : q_get sched function st = None <-> pend st = [].
Proof.
  unfold q_get, pending. destruct (results_q st) as [|d q].
  - destruct (running st) as [|p0 l]; [simpl; tauto|].
    cbv zeta. rewrite run_target_put. simpl. split; discriminate.
  - simpl. split; discriminate.
Qed.

(** Otherwise it removes one pending envelope and touches nothing else. *)
Lemma q_get_Some st d st1 :
  q_get sched function st = Some (d, st1) ->
  exists l1 l2,
    pend st = l1 ++ d :: l2 /\ pend st1 = l1 ++ l2 /\
    processes st1 = processes st /\ results st1 = results st /\
    trace st1 = trace st /\ clock st1 = S (clock st).
Proof.
  unfold q_get, pending. destruct (results_q st) as [|d0 q] eqn:Eq.
  - destruct (running st) as [|p0 l] eqn:Er; [discriminate|].
    cbv zeta. rewrite run_target_put.
    remember (Nat.modulo (sched (clock st)) (length (p0 :: l))) as i eqn:Ei.
    assert (Hi : (i < length (p0 :: l))%nat)
      by (subst i; apply Nat.mod_upper_bound; discriminate).
    clear Ei. rewrite app_nil_l. intros H. injection H as <- <-.
    exists (map env (firstn i (p0 :: l))), (map env (skipn (S i) (p0 :: l))).
    split; [|split].
    + rewrite app_nil_l, (nth_firstn_skipn (p0 :: l) i p0 Hi) at 1.
      now rewrite map_app.
    + cbn -[firstn skipn]. now rewrite map_app.
    + now cbn -[firstn skipn].
  - intros H. injection H as <- <-. exists [], (q ++ map env (running st)).
    now cbn.
Qed.

Lemma terminate_fields p st :
  processes (terminate USE_MULTIPROCESSING p st) = processes st /\
  results (terminate USE_MULTIPROCESSING p st) = results st /\
  trace (terminate USE_MULTIPROCESSING p st) = trace st ++ [EvTerminate (p_pid p)].
Proof. unfold terminate. now destruct USE_MULTIPROCESSING. Qed.

Lemma join_fields p st :
  processes (join USE_MULTIPROCESSING function p st) = processes st /\
  results (join USE_MULTIPROCESSING function p st) = results st /\
  trace (join USE_MULTIPROCESSING function p st) = trace st ++ [EvJoin (p_pid p)].
Proof.
  unfold join. now destruct (USE_MULTIPROCESSING && is_running _ _).
Qed.

Lemma terminate_noop p st :
  ~ In (p_pid p) (map p_pid (running st)) ->
  terminate USE_MULTIPROCESSING p st = log (EvTerminate (p_pid p)) st.
Proof.
  intros H. unfold terminate. destruct USE_MULTIPROCESSING; [|reflexivity].
  unfold log, with_running. cbn [processes results_q results running clock trace].
  now rewrite (remove_pid_notin _ _ H).
Qed.

Lemma join_noop p st :
  ~ In (p_pid p) (map p_pid (running st)) ->
  join USE_MULTIPROCESSING function p st = log (EvJoin (p_pid p)) st.
Proof.
  intros H. unfold join.
  rewrite (is_running_notin (p_pid p) (log _ st)) by exact H.
  now rewrite andb_false_r.
Qed.

(** The loop over [processes.items()] only talks to the backend. *)
Lemma fold_terminate_fields (l : list (nat * proc)) st :
  let st' := fold_left (fun s kv => terminate USE_MULTIPROCESSING (snd kv) s) l st in
  processes st' = processes st /\ results st' = results st /\
  trace st' = trace st ++ map (fun kv => EvTerminate (p_pid (snd kv))) l.
Proof.
  revert st. induction l as [|kv l IH]; intros st; simpl.
  - now rewrite app_nil_r.
  - destruct (IH (terminate USE_MULTIPROCESSING (snd kv) st)) as (-> & -> & ->).
    destruct (terminate_fields (snd kv) st) as (-> & -> & ->).
    now rewrite <- app_assoc.
Qed.

Lemma terminate_all_fields st :
  let st' := terminate_all USE_MULTIPROCESSING st in
  processes st' = processes st /\ results st' = results st /\
  trace st' = trace st ++ map (fun kv => EvTerminate (p_pid (snd kv))) (processes st).
Proof. apply fold_terminate_fields. Qed.
End Backend.

(** ** One call of [collect_result] *)

Section Collect.
Context (USE_MULTIPROCESSING : bool).
Context (sched : nat -> nat).
Context (function : pyval -> pyval -> call_outcome).
Context (forward_exceptions : bool).

Local Abbreviation pend := (pending function).
Local Abbreviation collect :=
  (collect_result USE_MULTIPROCESSING sched function forward_exceptions).

Lemma release_ok pid st :
  In pid (PyDictN.keys (processes st)) ->
  (forall k p, In (k, p) (processes st) -> p_pid p = k) ->
  ~ In pid (map p_pid (running st)) ->
  exists ps',
    PyDictN.del (processes st) pid = Some ps' /\
    release USE_MULTIPROCESSING function pid st =
      Next (State ps' (results_q st) (results st) (running st) (clock st)
              (trace st ++ [EvJoin pid; EvTerminate pid;
                            EvProcesses (PyDictN.keys ps')])).
Proof.
  intros Hk Hp Hr.
  destruct (PyDictFacts.in_keys_get _ _ Hk) as [p Hget].
  assert (Epid : p_pid p = pid) by (apply Hp, PyDictFacts.get_In, Hget).
  destruct (PyDictFacts.get_del _ _ _ Hget) as [ps' Hdel].
  exists ps'. split; [exact Hdel|].
  unfold release. rewrite Hget.
  rewrite join_noop by (rewrite Epid; exact Hr).
  cbn [processes log]. rewrite Hget.
  rewrite terminate_noop by (rewrite Epid; exact Hr).
  cbn [processes log]. rewrite Hdel, Epid.
  unfold with_processes, log.
  cbn [processes results_q results running clock trace].
  now rewrite <- !app_assoc.
Qed.

(** The complete case analysis of one call on a state that is in sync. *)
Lemma collect_result_cases st :
  in_sync function st ->
  (pend st = [] /\ collect st = Halt Blocked st) \/
  exists d st1 l1 l2,
    q_get sched function st = Some (d, st1) /\
    pend st = l1 ++ d :: l2 /\ pend st1 = l1 ++ l2 /\
    ((exists e tb,
        rd_exception d = Some (e, tb) /\ forward_exceptions = true /\
        collect st =
          Halt (Propagated (add_args e [PyStr tb]))
               (terminate_all USE_MULTIPROCESSING (log (EvRecv d) st1))) \/
     ((is_success d = true \/ forward_exceptions = false) /\
      exists ps',
        PyDictN.del (processes st) (rd_pid d) = Some ps' /\
        collect st =
          Next (State ps' (results_q st1)
                  (results st ++ (if is_success d then [rd_result d] else []))
                  (running st1) (clock st1)
                  (trace st ++ [EvRecv d; EvJoin (rd_pid d);
                                EvTerminate (rd_pid d);
                                EvProcesses (PyDictN.keys ps')])))).
Proof.
  intros (Hnd & Hperm & Hp).
  unfold collect_result.
  destruct (q_get sched function st) as [[d st1]|] eqn:Hq.
  2:{ left. split; [now apply q_get_None in Hq | reflexivity]. }
  right. destruct (q_get_Some _ _ _ _ _ Hq) as (l1 & l2 & E & E1 & Eps & Ers & Etr & _).
  exists d, st1, l1, l2. split; [reflexivity|]. split; [exact E|]. split; [exact E1|].
  assert (Hk : In (rd_pid d) (PyDictN.keys (processes st))).
  { eapply Permutation_in; [symmetry; exact Hperm|].
    rewrite E, map_app, in_app_iff. right. now left. }
  assert (Hr : ~ In (rd_pid d) (map p_pid (running st1))).
  { rewrite E, map_app in Hnd. simpl in Hnd. apply NoDup_remove_2 in Hnd.
    rewrite <- map_app, <- E1 in Hnd. unfold pending in Hnd.
    rewrite map_app, map_rd_pid_envelope_of in Hnd.
    intros Hin. apply Hnd, in_or_app. now right. }
  assert (Hrel : forall st2,
    processes st2 = processes st -> running st2 = running st1 ->
    exists ps',
      PyDictN.del (processes st) (rd_pid d) = Some ps' /\
      release USE_MULTIPROCESSING function (rd_pid d) st2 =
        Next (State ps' (results_q st2) (results st2) (running st1) (clock st2)
                (trace st2 ++ [EvJoin (rd_pid d); EvTerminate (rd_pid d);
                               EvProcesses (PyDictN.keys ps')]))).
  { intros st2 H1 H2. rewrite <- H1, <- H2. apply release_ok.
    - now rewrite H1.
    - now rewrite H1.
    - now rewrite H2. }
  unfold is_success. destruct (rd_exception d) as [[e tb]|] eqn:Eex.
  - destruct forward_exceptions eqn:Efw.
    + left. now exists e, tb.
    + right. split; [now right|].
      destruct (Hrel (log (EvRecv d) st1)) as (ps' & Hdel & ->);
        [exact Eps | reflexivity |].
      exists ps'. split; [exact Hdel|].
      cbn [processes results_q results running clock trace log].
      now rewrite Ers, Etr, app_nil_r, <- app_assoc.
  - right. split; [now left|].
    destruct (Hrel (with_results (results (log (EvRecv d) st1) ++ [rd_result d])
                      (log (EvRecv d) st1))) as (ps' & Hdel & ->);
      [exact Eps | reflexivity |].
    exists ps'. split; [exact Hdel|].
    cbn [processes results_q results running clock trace log with_results].
    now rewrite Ers, Etr, <- app_assoc.
Qed.
End Collect.

(** ** Preservation of the invariant *)

Lemma last_cons {A : Type} (a d : A) (l : list A) : last (a :: l) d = last l a.
Proof.
  revert a d. induction l as [|b l IH]; intros a d; [reflexivity|].
  change (last (a :: b :: l) d) with (last (b :: l) d).
  now rewrite !IH.
Qed.

Lemma snapshots_cons ev tr :
  snapshots (ev :: tr) =
  match ev with EvProcesses ks => ks :: snapshots tr | _ => snapshots tr end.
Proof. now destruct ev. Qed.

Lemma recv_ok_app ks tr1 tr2 :
  recv_ok ks (tr1 ++ tr2) <->
  recv_ok ks tr1 /\ recv_ok (last (snapshots tr1) ks) tr2.
Proof.
  revert ks. induction tr1 as [|ev tr1 IH]; intros ks.
  - simpl. tauto.
  - rewrite snapshots_cons.
    destruct ev; cbn [app recv_ok]; rewrite ?last_cons, IH; tauto.
Qed.

Lemma filter_Forall_true {A : Type} (f : A -> bool) (l : list A) :
  Forall (fun x => f x = true) l -> filter f l = l.
Proof.
  induction 1 as [|x l Hx _ IH]; simpl; [reflexivity|]. now rewrite Hx, IH.
Qed.

Lemma Permutation_filter {A : Type} (f : A -> bool) (l l' : list A) :
  Permutation l l' -> Permutation (filter f l) (filter f l').
Proof.
  induction 1 as [|x l l' _ IH|x y l|l l' l'' _ IH1 _ IH2]; simpl.
  - constructor.
  - destruct (f x); [now constructor | exact IH].
  - destruct (f x), (f y); try reflexivity. constructor.
  - now transitivity (filter f l').
Qed.

Section Preservation.
Context (USE_MULTIPROCESSING : bool).
Context (sched : nat -> nat).
Context (function : pyval -> pyval -> call_outcome).
Context (forward_exceptions : bool).
Context (max_processes : Z).

Local Abbreviation pend := (pending function).
Local Abbreviation env := (envelope_of function).
Local Abbreviation collect :=
  (collect_result USE_MULTIPROCESSING sched function forward_exceptions).
Local Abbreviation I := (Inv function forward_exceptions max_processes).

Lemma Inv_pids_NoDup started st :
  I started st -> NoDup (map rd_pid (received (trace st) ++ pend st)).
Proof.
  intros H. eapply Permutation_NoDup.
  - symmetry. apply Permutation_map, (inv_all _ _ _ _ _ H).
  - rewrite map_rd_pid_envelope_of, (inv_ids _ _ _ _ _ H). apply seq_NoDup.
Qed.

Lemma Inv_in_sync started st : I started st -> in_sync function st.
Proof.
  intros H. split; [|split].
  - pose proof (Inv_pids_NoDup _ _ H) as Hnd.
    rewrite map_app in Hnd. now apply NoDup_app_remove_l in Hnd.
  - apply (inv_keys _ _ _ _ _ H).
  - apply (inv_handles _ _ _ _ _ H).
Qed.

Lemma Inv_pending_started started st d :
  I started st -> In d (pend st) -> In d (map env started).
Proof.
  intros H Hin. eapply Permutation_in; [apply (inv_all _ _ _ _ _ H)|].
  apply in_or_app. now right.
Qed.

Lemma Inv_initial : I [] initial_state.
Proof.
  constructor; cbn; try reflexivity; try contradiction.
  - intros _. constructor.
  - intros Hm. split; [lia | constructor].
Qed.

(** A successful [collect_result] keeps the invariant and frees one slot. *)
Lemma Inv_collect started st st' :
  I started st -> collect st = Next st' ->
  I started st' /\ length (processes st) = S (length (processes st')).
Proof.
  intros H Hc. pose proof (Inv_pids_NoDup _ _ H) as Hnd.
  destruct (collect_result_cases USE_MULTIPROCESSING sched function
              forward_exceptions st (Inv_in_sync _ _ H))
    as [[_ Hb]|(d & st1 & l1 & l2 & Hq & E & E1 & [(e & tb & _ & _ & Hh)|(Hs & ps' & Hdel & Hn)])];
    [congruence | congruence |].
  rewrite Hn in Hc. injection Hc as <-.
  destruct H as [Hids Hall Hkeys Hhand Hres Hfw Hst Hj Hb Ho Hrecv Hlast].
  assert (Ep : pend (State ps' (results_q st1)
                 (results st ++ (if is_success d then [rd_result d] else []))
                 (running st1) (clock st1)
                 (trace st ++ [EvRecv d; EvJoin (rd_pid d); EvTerminate (rd_pid d);
                               EvProcesses (PyDictN.keys ps')])) = l1 ++ l2)
    by exact E1.
  assert (Hlen : length (processes st) = S (length ps'))
    by (eapply PyDictFacts.del_length; exact Hdel).
  assert (Hkeys' : Permutation (PyDictN.keys ps') (map rd_pid (l1 ++ l2))).
  { apply Permutation_cons_inv with (a := rd_pid d).
    rewrite <- (PyDictFacts.del_keys _ _ _ Hdel), Hkeys, E.
    rewrite !map_app. simpl. symmetry. apply Permutation_middle. }
  split; [|exact Hlen].
  constructor; cbn [processes results_q results running clock trace];
    rewrite ?Ep, ?received_app, ?started_pids_app, ?joined_pids_app, ?snapshots_app;
    cbn [received started_pids joined_pids snapshots flat_map app];
    rewrite ?app_nil_r.
  - exact Hids.
  - rewrite <- Hall, E, <- app_assoc. apply Permutation_app_head.
    simpl. apply Permutation_middle.
  - exact Hkeys'.
  - intros k p Hin. apply Hhand. eapply PyDictFacts.del_In; eauto.
  - rewrite filter_app, map_app, <- Hres. simpl.
    now destruct (is_success d).
  - intros Hf. apply Forall_app. split; [now apply Hfw|].
    constructor; [|constructor]. destruct Hs as [Hs|Hs]; [exact Hs|congruence].
  - exact Hst.
  - intros pid Hin. rewrite map_app, in_app_iff. simpl.
    apply in_app_or in Hin. destruct Hin as [Hin|[<-|[]]]; [left; now apply Hj|].
    right. now left.
  - intros Hm. destruct (Hb Hm) as [Hb1 Hb2]. split; [lia|].
    apply Forall_app. split; [exact Hb2|]. constructor; [|constructor].
    unfold PyDictN.keys. rewrite length_map. lia.
  - intros Hm. destruct (Hb ltac:(lia)) as [Hb1 _].
    assert (Hl : (length (l1 ++ d :: l2) <= 1)%nat).
    { rewrite <- E, <- (length_map rd_pid), <- (Permutation_length Hkeys).
      unfold PyDictN.keys. rewrite length_map. lia. }
    destruct l1 as [|x l1]; [|rewrite length_app in Hl; simpl in Hl; lia].
    destruct l2 as [|y l2]; [|simpl in Hl; lia].
    rewrite <- Ho, E by exact Hm. now rewrite app_nil_r.
  - apply recv_ok_app. split; [exact Hrecv|]. rewrite Hlast. simpl.
    split; [|exact Logic.I].
    eapply Permutation_in; [symmetry; exact Hkeys|].
    rewrite E, map_app, in_app_iff. right. now left.
  - now rewrite last_last.
Qed.
Lemma start_fields p st :
  let st' := start USE_MULTIPROCESSING function p st in
  processes st' = processes st /\ results st' = results st /\
  trace st' = trace st ++ [EvStart (p_pid p)] /\
  Permutation (pend st') (pend st ++ [env p]) /\
  (pend st = [] -> pend st' = [env p]).
Proof.
  unfold start, pending. destruct USE_MULTIPROCESSING;
    cbn [processes results_q results running clock trace log with_running with_results_q].
  - repeat split; try reflexivity.
    + now rewrite map_app, app_assoc.
    + intros H. apply app_eq_nil in H as [-> H]. apply map_eq_nil in H as ->.
      reflexivity.
  - rewrite run_target_put. repeat split; try reflexivity.
    + rewrite <- !app_assoc. apply Permutation_app_head, Permutation_app_comm.
    + intros H. apply app_eq_nil in H as [-> H]. apply map_eq_nil in H as ->.
      reflexivity.
Qed.

(** [new_process] keeps the invariant when a slot is free. *)
Lemma Inv_new_process started st args kwargs :
  I started st ->
  (1 <= max_processes -> Z.of_nat (length (processes st)) < max_processes) ->
  I (started ++ [Proc (length started) args kwargs])
    (new_process USE_MULTIPROCESSING function (length started) args kwargs st).
Proof.
  intros H Hfree. pose proof (Inv_pids_NoDup _ _ H) as Hnd.
  set (pid := length started). set (p := Proc pid args kwargs).
  destruct (start_fields p st) as (Eps & Ers & Etr & Hperm & Hone).
  assert (Hfresh : ~ In pid (PyDictN.keys (processes st))).
  { intros Hin.
    assert (Hin' : In pid (map p_pid started)).
    { rewrite <- map_rd_pid_envelope_of with (function := function).
      eapply Permutation_in; [apply Permutation_map, (inv_all _ _ _ _ _ H)|].
      rewrite map_app, in_app_iff. right.
      eapply Permutation_in; [apply (inv_keys _ _ _ _ _ H)|exact Hin]. }
    rewrite (inv_ids _ _ _ _ _ H), in_seq in Hin'. unfold pid in Hin'. lia. }
  destruct H as [Hids Hall Hkeys Hhand Hres Hfw Hst Hj Hb Ho Hrecv Hlast].
  unfold new_process. fold p. rewrite Eps, (PyDictFacts.set_fresh _ _ _ Hfresh).
  set (st' := with_processes (processes st ++ [(pid, p)])
                (start USE_MULTIPROCESSING function p st)).
  assert (Ep : pend st' = pend (start USE_MULTIPROCESSING function p st))
    by reflexivity.
  assert (Ek : PyDictN.keys (processes st ++ [(pid, p)])
               = PyDictN.keys (processes st) ++ [pid])
    by (unfold PyDictN.keys; now rewrite map_app).
  assert (Eps' : processes st' = processes st ++ [(pid, p)]) by reflexivity.
  assert (Ers' : results st' = results st) by exact Ers.
  assert (Etr' : trace st' = trace st ++ [EvStart pid; EvProcesses
                   (PyDictN.keys (processes st) ++ [pid])]).
  { unfold st', with_processes. cbn [trace]. rewrite Etr, Ek, <- app_assoc.
    reflexivity. }
  clearbody st'.
  constructor; rewrite ?Eps', ?Ers', ?Etr', ?Ep, ?received_app, ?started_pids_app,
                 ?joined_pids_app, ?snapshots_app;
    cbn [received started_pids joined_pids snapshots flat_map app];
    rewrite ?app_nil_r.
  - rewrite map_app, length_app, seq_app, Hids. reflexivity.
  - rewrite Hperm, app_assoc, map_app. now apply Permutation_app_tail.
  - rewrite Hperm, Ek, map_app. simpl. rewrite rd_pid_envelope_of.
    now apply Permutation_app_tail.
  - intros k q Hin. apply in_app_or in Hin as [Hin|[Hin|[]]]; [now apply Hhand|].
    now injection Hin as <- <-.
  - exact Hres.
  - exact Hfw.
  - rewrite map_app, Hst. reflexivity.
  - exact Hj.
  - intros Hm. destruct (Hb Hm) as [Hb1 Hb2]. specialize (Hfree Hm).
    assert (Hl : Z.of_nat (length (processes st ++ [(pid, p)])) <= max_processes)
      by (rewrite length_app; simpl; lia).
    split; [exact Hl|]. apply Forall_app. split; [exact Hb2|].
    constructor; [|constructor]. unfold PyDictN.keys.
    rewrite length_app, length_map. rewrite length_app in Hl. simpl in *. lia.
  - intros Hm. specialize (Hfree ltac:(lia)).
    destruct (processes st) as [|kv ps] eqn:Eproc; [|simpl in Hfree; lia].
    apply Permutation_nil in Hkeys. apply map_eq_nil in Hkeys.
    rewrite (Hone Hkeys), map_app, <- (Ho Hm), Hkeys, app_nil_r. reflexivity.
  - apply recv_ok_app. split; [exact Hrecv|]. exact Logic.I.
  - now rewrite last_last.
Qed.
End Preservation.

(** ** The two loops and the whole call *)

Section Run.
Context (USE_MULTIPROCESSING : bool).
Context (sched : nat -> nat).
Context (function : pyval -> pyval -> call_outcome).
Context (forward_exceptions with_kwargs : bool).
Context (max_processes : Z).

Local Abbreviation pend := (pending function).
Local Abbreviation env := (envelope_of function).
Local Abbreviation collect :=
  (collect_result USE_MULTIPROCESSING sched function forward_exceptions).
Local Abbreviation I := (Inv function forward_exceptions max_processes).
Local Abbreviation stop :=
  (stopped sched function USE_MULTIPROCESSING forward_exceptions with_kwargs
           max_processes).

(** A [collect_result] that does not come back has blocked with nothing
    active, or has re-raised the failure it received. *)
Lemma collect_halt started st o st' :
  I started st -> collect st = Halt o st' ->
  (o = Blocked /\ st' = st /\ processes st = []) \/
  (exists d st1 e tb,
     forward_exceptions = true /\
     q_get sched function st = Some (d, st1) /\ In d (pend st) /\
     rd_exception d = Some (e, tb) /\ o = Propagated (add_args e [PyStr tb]) /\
     st' = terminate_all USE_MULTIPROCESSING (log (EvRecv d) st1)).
Proof.
  intros H Hc.
  destruct (collect_result_cases USE_MULTIPROCESSING sched function
              forward_exceptions st (Inv_in_sync _ _ _ _ _ H))
    as [[Hp Hb]|(d & st1 & l1 & l2 & Hq & E & E1 & [(e & tb & Hex & Hf & Hh)|(Hs & ps' & Hdel & Hn)])].
  - left. rewrite Hb in Hc. injection Hc as <- <-. repeat split.
    pose proof (inv_keys _ _ _ _ _ H) as Hk. rewrite Hp in Hk.
    apply Permutation_sym, Permutation_nil in Hk. now apply map_eq_nil in Hk.
  - right. rewrite Hh in Hc. injection Hc as <- <-.
    exists d, st1, e, tb. repeat split; try assumption.
    rewrite E. apply in_or_app. right. now left.
  - congruence.
Qed.

Lemma stopped_cons all job rest o st' :
  stop all rest o st' -> stop all (job :: rest) o st'.
Proof.
  intros (started0 & st0 & H & Hall & Ho). exists started0, st0.
  split; [exact H|]. split; [exact Hall|].
  destruct o; try exact Ho. destruct Ho as [-> Hn]. split; [reflexivity|].
  intros HF. apply Hn. now inversion HF.
Qed.

Lemma for_jobs_spec jobs : forall started st,
  I started st ->
  match for_jobs USE_MULTIPROCESSING sched function forward_exceptions
                 with_kwargs max_processes (length started) jobs st with
  | Next st' =>
      I (started ++ job_procs with_kwargs (length started) jobs) st' /\
      Forall (unpackable with_kwargs) jobs
  | Halt o st' =>
      stop (started ++ job_procs with_kwargs (length started) jobs) jobs o st'
  end.
Proof.
  induction jobs as [|job rest IH]; intros started st H.
  - simpl. rewrite app_nil_r. now split.
  - cbn [for_jobs job_procs].
    destruct (unpack_job with_kwargs job) as [e|[args kwargs]] eqn:Eu.
    { exists started, st. split; [exact H|]. split; [now exists []|].
      split; [reflexivity|]. intros HF. inversion HF as [|? ? (a & k & Hu) _].
      congruence. }
    assert (Hcont : forall st1,
      I started st1 ->
      (1 <= max_processes -> Z.of_nat (length (processes st1)) < max_processes) ->
      match for_jobs USE_MULTIPROCESSING sched function forward_exceptions
                     with_kwargs max_processes (S (length started)) rest
                     (new_process USE_MULTIPROCESSING function (length started)
                                  args kwargs st1) with
      | Next st' =>
          I (started ++ Proc (length started) args kwargs
                        :: job_procs with_kwargs (S (length started)) rest) st' /\
          Forall (unpackable with_kwargs) (job :: rest)
      | Halt o st' =>
          stop (started ++ Proc (length started) args kwargs
                        :: job_procs with_kwargs (S (length started)) rest)
               (job :: rest) o st'
      end).
    { intros st1 H1 Hfree.
      pose proof (Inv_new_process USE_MULTIPROCESSING function forward_exceptions
                    max_processes started st1 args kwargs H1 Hfree) as H2.
      specialize (IH _ _ H2). rewrite length_app in IH. simpl length in IH.
      rewrite Nat.add_1_r, <- app_assoc in IH. simpl app in IH.
      destruct (for_jobs _ _ _ _ _ _ _ rest _) as [st'|o st'].
      - destruct IH as [IH1 IH2]. split; [exact IH1|].
        constructor; [now exists args, kwargs | exact IH2].
      - now apply stopped_cons. }
    destruct (Z.of_nat (length (processes st)) >=? max_processes) eqn:Eg.
    + destruct (collect st) as [st1|o st1] eqn:Ec.
      * destruct (Inv_collect _ _ _ _ _ _ _ _ H Ec) as [H1 Hlen].
        apply Hcont; [exact H1|]. intros Hm.
        destruct (inv_bound _ _ _ _ _ H Hm) as [Hb _]. lia.
      * exists started, st. split; [exact H|]. split; [now eexists|].
        destruct (collect_halt _ _ _ _ H Ec)
          as [(-> & -> & Hp)|(d & st2 & e & tb & Hf & Hq & Hin & Hex & -> & ->)].
        -- split; [reflexivity|]. split; [|exact Hp].
           rewrite Hp in Eg. simpl in Eg. apply Z.geb_le in Eg. exact Eg.
        -- split; [exact Hf|]. now exists d, st2, e, tb.
    + apply Hcont; [exact H|]. intros _.
      rewrite Z.geb_leb in Eg. apply Z.leb_gt in Eg. exact Eg.
Qed.

Lemma drain_spec jobs fuel : forall started st,
  I started st -> (length (processes st) <= fuel)%nat ->
  match drain USE_MULTIPROCESSING sched function forward_exceptions fuel st with
  | Next st' => I started st' /\ processes st' = []
  | Halt o st' => stop started jobs o st' /\ exists e, o = Propagated e
  end.
Proof.
  induction fuel as [|fuel IH]; intros started st H Hlen.
  - destruct (processes st) as [|kv ps] eqn:Ep; [|simpl in Hlen; lia].
    simpl. now rewrite Ep.
  - cbn [drain]. destruct (processes st) as [|kv ps] eqn:Ep; [now split|].
    destruct (collect st) as [st1|o st1] eqn:Ec.
    + destruct (Inv_collect _ _ _ _ _ _ _ _ H Ec) as [H1 Hl].
      apply IH; [exact H1|]. rewrite Ep in Hl. simpl in *. lia.
    + destruct (collect_halt _ _ _ _ H Ec)
        as [(_ & _ & Hp)|(d & st2 & e & tb & Hf & Hq & Hin & Hex & -> & ->)];
        [congruence|].
      split; [|now eexists]. exists started, st. split; [exact H|].
      split; [exists []; now rewrite app_nil_r|].
      split; [exact Hf|]. now exists d, st2, e, tb.
Qed.

(** Every way in which a call can end. *)
Lemma schedule_workers_spec args_list :
  let r := schedule_workers USE_MULTIPROCESSING sched function forward_exceptions
             args_list with_kwargs max_processes in
  match fst r with
  | Returned l =>
      I (job_procs with_kwargs 0 args_list) (snd r) /\
      Forall (unpackable with_kwargs) args_list /\
      processes (snd r) = [] /\ l = results (snd r)
  | o => stop (job_procs with_kwargs 0 args_list) args_list o (snd r)
  end.
Proof.
  unfold schedule_workers.
  pose proof (for_jobs_spec args_list [] initial_state
                (Inv_initial function forward_exceptions max_processes)) as Hf.
  simpl length in Hf. simpl app in Hf.
  destruct (for_jobs _ _ _ _ _ _ _ args_list _) as [st|o st].
  - destruct Hf as [H HF].
    pose proof (drain_spec args_list (length (processes st)) _ st H (Nat.le_refl _)) as Hd.
    destruct (drain _ _ _ _ _ st) as [st'|o st'].
    + destruct Hd as [H' Hp]. cbn.
      split; [exact H'|]. split; [exact HF|]. split; [exact Hp|reflexivity].
    + destruct Hd as [Hs [e ->]]. exact Hs.
  - cbn. destruct o; try exact Hf. destruct Hf as (? & ? & _ & _ & []).
Qed.
End Run.

(** ** Jobs, outcomes and envelopes *)

Lemma Forall2_job_yields function with_kwargs jobs outs :
  Forall2 (job_yields function with_kwargs) jobs outs ->
  Forall (unpackable with_kwargs) jobs /\
  forall pid,
    map (envelope_of function) (job_procs with_kwargs pid jobs)
    = envelopes_from pid outs.
Proof.
  induction 1 as [|job o jobs outs (a & k & Hu & Ho) _ [IH1 IH2]].
  - now split.
  - split.
    + constructor; [now exists a, k | exact IH1].
    + intros pid. cbn [job_procs envelopes_from]. rewrite Hu.
      cbn [map]. rewrite IH2. unfold envelope_of. cbn [p_pid p_args p_kwargs].
      now rewrite Ho.
Qed.

Lemma Forall2_job_returns function with_kwargs jobs vals :
  Forall2 (job_returns function with_kwargs) jobs vals ->
  Forall2 (job_yields function with_kwargs) jobs (map Returns vals).
Proof. induction 1; simpl; now constructor. Qed.

Lemma returned_values_envelopes outs pid :
  map rd_result (filter is_success (envelopes_from pid outs)) = returned_values outs.
Proof.
  revert pid. induction outs as [|o outs IH]; intros pid; [reflexivity|].
  cbn [envelopes_from returned_values flat_map filter].
  destruct o as [v|e tb]; cbn; now rewrite IH.
Qed.

Lemma returned_values_Returns vals : returned_values (map Returns vals) = vals.
Proof. induction vals as [|v vals IH]; simpl; [reflexivity|]. now f_equal. Qed.

Lemma success_envelopes outs pid :
  Forall (fun d => is_success d = true) (envelopes_from pid outs) ->
  ~ Exists raised outs.
Proof.
  revert pid. induction outs as [|o outs IH]; intros pid HF HE.
  - inversion HE.
  - cbn [envelopes_from] in HF. inversion HF as [|? ? Hs HF']. subst.
    inversion HE as [? ? Hr|? ? HE']; subst.
    + destruct o; [exact Hr | discriminate Hs].
    + exact (IH _ HF' HE').
Qed.

(** A failure envelope among those of the jobs is the one of the job that it
    names, and that job raised. *)
Lemma failure_envelope outs : forall pid d e tb,
  In d (envelopes_from pid outs) -> rd_exception d = Some (e, tb) ->
  exists frames,
    nth_error outs (rd_pid d - pid) = Some (Raises e frames) /\
    tb = join_lines frames /\ (pid <= rd_pid d)%nat /\
    d = envelope_for (rd_pid d) (Raises e frames).
Proof.
  induction outs as [|o outs IH]; intros pid d e tb Hin Hex; [destruct Hin|].
  destruct Hin as [<-|Hin].
  - destruct o as [v|e' frames]; [discriminate Hex|].
    cbn in Hex. injection Hex as -> <-. exists frames. cbn [envelope_for rd_pid].
    rewrite Nat.sub_diag. now repeat split.
  - destruct (IH _ _ _ _ Hin Hex) as (frames & Hn & Ht & Hle & Hd).
    exists frames. replace (rd_pid d - pid)%nat with (S (rd_pid d - S pid)) by lia.
    repeat split; try assumption. lia.
Qed.

Lemma returned_values_length outs :
  (length (returned_values outs) <= length outs)%nat /\
  (Exists raised outs -> (length (returned_values outs) < length outs)%nat) /\
  (Forall raised outs -> returned_values outs = []).
Proof.
  induction outs as [|o outs (IH1 & IH2 & IH3)].
  - repeat split; [simpl; lia | inversion 1].
  - cbn [returned_values flat_map]. fold (returned_values outs).
    rewrite length_app. repeat split.
    + destruct o; simpl; lia.
    + intros HE. inversion HE as [? ? Hr|? ? HE']; subst.
      * destruct o; [destruct Hr|]. simpl. lia.
      * specialize (IH2 HE'). destruct o; simpl; lia.
    + intros HF. inversion HF as [|? ? Hr HF']; subst.
      destruct o; [destruct Hr|]. simpl. now apply IH3.
Qed.

Lemma received_terminates (l : list (nat * proc)) :
  received (map (fun kv => EvTerminate (p_pid (snd kv))) l) = [] /\
  snapshots (map (fun kv => EvTerminate (p_pid (snd kv))) l) = [] /\
  joined_pids (map (fun kv => EvTerminate (p_pid (snd kv))) l) = [] /\
  started_pids (map (fun kv => EvTerminate (p_pid (snd kv))) l) = [] /\
  forall ks, recv_ok ks (map (fun kv => EvTerminate (p_pid (snd kv))) l).
Proof.
  induction l as [|kv l (IH1 & IH2 & IH3 & IH4 & IH5)]; simpl; repeat split; auto.
Qed.

Lemma NoDup_app_disjoint {A : Type} (l1 l2 : list A) (x : A) :
  NoDup (l1 ++ l2) -> In x l1 -> In x l2 -> False.
Proof.
  induction l1 as [|a l1 IH]; simpl; intros Hnd H1 H2; [exact H1|].
  inversion Hnd as [|? ? Hnot Hnd']; subst. destruct H1 as [->|H1].
  - apply Hnot, in_or_app. now right.
  - now apply IH.
Qed.

(** ** What the outcome of a call tells *)

Section Outcomes.
Context (USE_MULTIPROCESSING : bool).
Context (sched : nat -> nat).
Context (function : pyval -> pyval -> call_outcome).
Context (forward_exceptions with_kwargs : bool).
Context (max_processes : Z).
Context (args_list : list pyval).

Local Abbreviation pend := (pending function).
Local Abbreviation env := (envelope_of function).
Local Abbreviation I := (Inv function forward_exceptions max_processes).
Local Abbreviation all := (job_procs with_kwargs 0 args_list).
Local Abbreviation run :=
  (schedule_workers USE_MULTIPROCESSING sched function forward_exceptions
                    args_list with_kwargs max_processes).

Lemma run_returned l :
  fst run = Returned l ->
  I all (snd run) /\ processes (snd run) = [] /\ pend (snd run) = [] /\
  Forall (unpackable with_kwargs) args_list /\
  Permutation (received (trace (snd run))) (map env all) /\
  l = map rd_result (filter is_success (received (trace (snd run)))).
Proof.
  intros E.
  pose proof (schedule_workers_spec USE_MULTIPROCESSING sched function
                forward_exceptions with_kwargs max_processes args_list) as H.
  cbv zeta in H. rewrite E in H. destruct H as (H & HF & Hp & ->).
  assert (Hpend : pend (snd run) = []).
  { pose proof (inv_keys _ _ _ _ _ H) as Hk. rewrite Hp in Hk.
    apply Permutation_nil in Hk. now apply map_eq_nil in Hk. }
  repeat match goal with |- _ /\ _ => split end; try assumption.
  - pose proof (inv_all _ _ _ _ _ H) as Ha. now rewrite Hpend, app_nil_r in Ha.
  - apply (inv_results _ _ _ _ _ H).
Qed.

Lemma run_propagated e' :
  fst run = Propagated e' ->
  forward_exceptions = true /\
  exists started0 st0 d e tb,
    I started0 st0 /\ (exists rest, all = started0 ++ rest) /\
    In d (pend st0) /\ rd_exception d = Some (e, tb) /\
    e' = add_args e [PyStr tb] /\
    processes (snd run) = processes st0 /\
    trace (snd run) =
      trace st0 ++ EvRecv d
        :: map (fun kv => EvTerminate (p_pid (snd kv))) (processes st0).
Proof.
  intros E.
  pose proof (schedule_workers_spec USE_MULTIPROCESSING sched function
                forward_exceptions with_kwargs max_processes args_list) as H.
  cbv zeta in H. rewrite E in H.
  destruct H as (started0 & st0 & H & Hall & Hf & d & st1 & e & tb & Hq & Hin & Hex & -> & Hst).
  split; [exact Hf|]. exists started0, st0, d, e, tb.
  destruct (q_get_Some _ _ _ _ _ Hq) as (_ & _ & _ & _ & Eps & _ & Etr & _).
  destruct (terminate_all_fields USE_MULTIPROCESSING (log (EvRecv d) st1))
    as (Hp & _ & Ht).
  rewrite <- Hst in Hp, Ht. cbn [processes trace log] in Hp, Ht.
  rewrite Eps in Hp, Ht. rewrite Etr, <- app_assoc in Ht.
  repeat match goal with |- _ /\ _ => split end; try assumption; reflexivity.
Qed.

(** With a positive limit the call returns or raises, and it returns exactly
    when all jobs unpack and, under propagation, no started job failed. *)
Lemma run_kind :
  1 <= max_processes ->
  (kind_of (fst run) = KReturns \/ kind_of (fst run) = KRaises) /\
  (kind_of (fst run) = KReturns <->
   Forall (unpackable with_kwargs) args_list /\
   (forward_exceptions = true ->
    Forall (fun d => is_success d = true) (map env all))).
Proof.
  intros Hm.
  pose proof (schedule_workers_spec USE_MULTIPROCESSING sched function
                forward_exceptions with_kwargs max_processes args_list) as H.
  cbv zeta in H.
  destruct (fst run) as [l|e'|e| | |] eqn:E; cbn [kind_of].
  - split; [now left|]. split; [intros _|reflexivity].
    destruct (run_returned l E) as (Hi & _ & _ & HF & Hperm & _).
    split; [exact HF|]. intros Hf.
    eapply Permutation_Forall; [exact Hperm|]. now apply (inv_forward _ _ _ _ _ Hi).
  - split; [now right|]. split; [discriminate|]. intros [_ Hs]. exfalso.
    destruct (run_propagated e' E)
      as (Hf & started0 & st0 & d & e & tb & Hi & [rest Hall] & Hin & Hex & _).
    specialize (Hs Hf). rewrite Forall_forall in Hs.
    assert (Hd : is_success d = true).
    { apply Hs. rewrite Hall, map_app. apply in_or_app. left.
      eapply Inv_pending_started; eauto. }
    unfold is_success in Hd. now rewrite Hex in Hd.
  - split; [now right|]. split; [discriminate|]. intros [HF _]. exfalso.
    destruct H as (? & ? & _ & _ & _ & Hn). now apply Hn.
  - destruct H as (? & ? & _ & _ & []).
  - destruct H as (? & ? & _ & _ & _ & Hle & _). lia.
  - destruct H as (? & ? & _ & _ & []).
Qed.

(** With a limit below one the first receive finds nothing to wait for. *)
Lemma run_nonpositive :
  max_processes <= 0 ->
  run = match args_list with
        | [] => (Returned [], initial_state)
        | job :: _ =>
            match unpack_job with_kwargs job with
            | inl e => (UnpackError e, initial_state)
            | inr _ => (Blocked, initial_state)
            end
        end.
Proof.
  intros Hm. unfold schedule_workers. destruct args_list as [|job rest]; [reflexivity|].
  cbn [for_jobs]. destruct (unpack_job with_kwargs job) as [e|[a k]]; [reflexivity|].
  replace (Z.of_nat (length (processes initial_state)) >=? max_processes) with true
    by (symmetry; apply Z.geb_le; simpl; lia).
  reflexivity.
Qed.
(** A call that raises although all jobs unpack re-raises a worker's failure. *)
Lemma run_raises :
  Forall (unpackable with_kwargs) args_list ->
  kind_of (fst run) = KRaises -> exists e', fst run = Propagated e'.
Proof.
  intros HF Hk.
  pose proof (schedule_workers_spec USE_MULTIPROCESSING sched function
                forward_exceptions with_kwargs max_processes args_list) as H.
  cbv zeta in H.
  destruct (fst run) as [l|e'|e| | |] eqn:E; try discriminate Hk.
  - now exists e'.
  - destruct H as (? & ? & _ & _ & _ & Hn). now destruct (Hn HF).
  - destruct H as (? & ? & _ & _ & []).
Qed.

(** The fuel given to the last loop never runs out. *)
Lemma run_total : fst run <> OutOfFuel.
Proof.
  pose proof (schedule_workers_spec USE_MULTIPROCESSING sched function
                forward_exceptions with_kwargs max_processes args_list) as H.
  cbv zeta in H. intros E. rewrite E in H. now destruct H as (? & ? & _ & _ & []).
Qed.

(** The state in which a call ends: the invariant held just before. *)
Lemma run_final :
  exists started0 st0,
    I started0 st0 /\
    processes (snd run) = processes st0 /\
    (forall pid, fst run <> KeyError pid) /\
    (trace (snd run) = trace st0 \/
     exists d, In d (pend st0) /\
       trace (snd run) =
         trace st0 ++ EvRecv d
           :: map (fun kv => EvTerminate (p_pid (snd kv))) (processes st0)).
Proof.
  pose proof (schedule_workers_spec USE_MULTIPROCESSING sched function
                forward_exceptions with_kwargs max_processes args_list) as H.
  cbv zeta in H.
  destruct (fst run) as [l|e'|e| | |] eqn:E.
  - destruct H as (H & _). exists all, (snd run).
    split; [exact H|]. split; [reflexivity|]. split; [discriminate|now left].
  - destruct (run_propagated e' E)
      as (_ & started0 & st0 & d & e & tb & Hi & _ & Hin & _ & _ & Hp & Ht).
    exists started0, st0.
    split; [exact Hi|]. split; [exact Hp|]. split; [discriminate|].
    right. now exists d.
  - destruct H as (started0 & st0 & Hi & _ & -> & _). exists started0, st0.
    split; [exact Hi|]. split; [reflexivity|]. split; [discriminate|now left].
  - destruct H as (? & ? & _ & _ & []).
  - destruct H as (started0 & st0 & Hi & _ & -> & _). exists started0, st0.
    split; [exact Hi|]. split; [reflexivity|]. split; [discriminate|now left].
  - destruct H as (? & ? & _ & _ & []).
Qed.
End Outcomes.

Lemma success_envelopes_Returns vals pid :
  Forall (fun d => is_success d = true) (envelopes_from pid (map Returns vals)).
Proof.
  revert pid. induction vals as [|v vals IH]; intros pid; simpl; constructor; auto.
Qed.

Lemma returned_payloads USE_MULTIPROCESSING sched function forward_exceptions
    with_kwargs max_processes args_list outs l :
  fst (schedule_workers USE_MULTIPROCESSING sched function forward_exceptions
         args_list with_kwargs max_processes) = Returned l ->
  Forall2 (job_yields function with_kwargs) args_list outs ->
  Permutation l (returned_values outs).
Proof.
  intros E HF2. destruct (Forall2_job_yields _ _ _ _ HF2) as [_ Henv].
  destruct (run_returned _ _ _ _ _ _ _ _ E) as (_ & _ & _ & _ & Hperm & ->).
  rewrite Henv in Hperm. rewrite <- (returned_values_envelopes outs 0).
  now apply Permutation_map, Permutation_filter.
Qed.

(** ** [FakeProcess] against the isolated backend

    [FakeProcess] behaves as the isolated backend does when the worker that
    was started first always finishes first. *)

Section Serialised.
Context (sched : nat -> nat).
Context (function : pyval -> pyval -> call_outcome).
Context (forward_exceptions with_kwargs : bool).
Context (max_processes : Z).

Local Abbreviation env := (envelope_of function).
Local Abbreviation I := (Inv function forward_exceptions max_processes).
Local Abbreviation sim := (serialises function).
Local Abbreviation collectF :=
  (collect_result false sched function forward_exceptions).
Local Abbreviation collectR :=
  (collect_result true fifo function forward_exceptions).

Lemma q_get_sim stF stR :
  sim stF stR ->
  match q_get sched function stF, q_get fifo function stR with
  | None, None => True
  | Some (d, sF), Some (d', sR) => d = d' /\ sim sF sR
  | _, _ => False
  end.
Proof.
  intros (Hp & Hr & Ht & Hrun & Hq & Hqf). unfold q_get.
  rewrite Hq, Hqf, Hrun. destruct (running stR) as [|p0 l]; [exact Logic.I|].
  cbv zeta. cbn [map]. rewrite run_target_put.
  unfold fifo. rewrite Nat.Div0.mod_0_l. cbn [nth app firstn skipn].
  split; [reflexivity|]. now repeat split.
Qed.

Lemma collect_sim started stF stR :
  sim stF stR -> I started stF -> I started stR ->
  match collectF stF, collectR stR with
  | Next sF, Next sR => sim sF sR
  | Halt o sF, Halt o' sR => o = o' /\ same_observations sF sR
  | _, _ => False
  end.
Proof.
  intros Hs HF HR. pose proof (q_get_sim _ _ Hs) as Hq.
  destruct Hs as (Hp & Hr & Ht & Hrun & Hqr & Hqf).
  destruct (collect_result_cases false sched function forward_exceptions stF
              (Inv_in_sync _ _ _ _ _ HF))
    as [[HpF ->]|(d & sF & l1 & l2 & HqF & _ & _ & HcF)];
  destruct (collect_result_cases true fifo function forward_exceptions stR
              (Inv_in_sync _ _ _ _ _ HR))
    as [[HpR ->]|(d' & sR & l1' & l2' & HqR & _ & _ & HcR)].
  - now repeat split.
  - apply (proj2 (q_get_None sched function stF)) in HpF.
    now rewrite HpF, HqR in Hq.
  - apply (proj2 (q_get_None fifo function stR)) in HpR.
    now rewrite HqF, HpR in Hq.
  - rewrite HqF, HqR in Hq. destruct Hq as [<- (Hp1 & Hr1 & Ht1 & Hrun1 & Hqr1 & Hqf1)].
    destruct (q_get_Some _ _ _ _ _ HqF) as (_ & _ & _ & _ & EpF & _ & EtF & _).
    destruct (q_get_Some _ _ _ _ _ HqR) as (_ & _ & _ & _ & EpR & _ & EtR & _).
    destruct HcF as [(e & tb & Hex & Hf & ->)|(Hok & ps & Hdel & ->)];
    destruct HcR as [(e' & tb' & Hex' & Hf' & ->)|(Hok' & ps' & Hdel' & ->)].
    + rewrite Hex in Hex'. injection Hex' as <- <-. split; [reflexivity|].
      unfold same_observations.
      destruct (terminate_all_fields false (log (EvRecv d) sF)) as (-> & -> & ->).
      destruct (terminate_all_fields true (log (EvRecv d) sR)) as (-> & -> & ->).
      cbn [processes results trace log]. rewrite Hp1, Hr1, Ht1. now repeat split.
    + exfalso. unfold is_success in Hok'. rewrite Hex in Hok'.
      destruct Hok'; congruence.
    + exfalso. unfold is_success in Hok. rewrite Hex' in Hok.
      destruct Hok; congruence.
    + rewrite Hp, Hdel' in Hdel. injection Hdel as <-.
      repeat split; cbn [processes results_q results running clock trace];
        congruence.
Qed.

Lemma new_process_sim pid args kwargs stF stR :
  sim stF stR ->
  sim (new_process false function pid args kwargs stF)
      (new_process true function pid args kwargs stR).
Proof.
  intros (Hp & Hr & Ht & Hrun & Hqr & Hqf).
  unfold serialises, new_process, start, with_processes, with_running,
    with_results_q, log.
  cbn [processes results_q results running clock trace].
  rewrite run_target_put, Hp, Hr, Ht, Hrun, Hqr, Hqf, map_app.
  now repeat split.
Qed.

Lemma for_jobs_sim jobs : forall started stF stR,
  sim stF stR -> I started stF -> I started stR ->
  match for_jobs false sched function forward_exceptions with_kwargs
                 max_processes (length started) jobs stF,
        for_jobs true fifo function forward_exceptions with_kwargs
                 max_processes (length started) jobs stR with
  | Next sF, Next sR =>
      sim sF sR /\
      exists started', I started' sF /\ I started' sR
  | Halt o sF, Halt o' sR => o = o' /\ same_observations sF sR
  | _, _ => False
  end.
Proof.
  induction jobs as [|job rest IH]; intros started stF stR Hs HF HR.
  - cbn. split; [exact Hs|]. now exists started.
  - cbn [for_jobs].
    destruct (unpack_job with_kwargs job) as [e|[args kwargs]].
    { split; [reflexivity|]. destruct Hs as (? & ? & ? & _). now repeat split. }
    assert (Hcont : forall sF sR,
      sim sF sR -> I started sF -> I started sR ->
      (1 <= max_processes -> Z.of_nat (length (processes sF)) < max_processes) ->
      match for_jobs false sched function forward_exceptions with_kwargs
                     max_processes (S (length started)) rest
                     (new_process false function (length started) args kwargs sF),
            for_jobs true fifo function forward_exceptions with_kwargs
                     max_processes (S (length started)) rest
                     (new_process true function (length started) args kwargs sR) with
      | Next sF', Next sR' =>
          sim sF' sR' /\ exists started', I started' sF' /\ I started' sR'
      | Halt o sF', Halt o' sR' => o = o' /\ same_observations sF' sR'
      | _, _ => False
      end).
    { intros sF sR Hs' HF' HR' Hfree.
      assert (HfreeR : 1 <= max_processes ->
                       Z.of_nat (length (processes sR)) < max_processes)
        by (destruct Hs' as (<- & _); exact Hfree).
      pose proof (Inv_new_process false function forward_exceptions max_processes
                    started sF args kwargs HF' Hfree) as HF2.
      pose proof (Inv_new_process true function forward_exceptions max_processes
                    started sR args kwargs HR' HfreeR) as HR2.
      pose proof (IH _ _ _ (new_process_sim (length started) args kwargs _ _ Hs')
                    HF2 HR2) as H.
      rewrite length_app, Nat.add_1_r in H. exact H. }
    destruct Hs as (Hp & Hs'). rewrite <- Hp.
    destruct (Z.of_nat (length (processes stF)) >=? max_processes) eqn:Eg.
    + pose proof (collect_sim started stF stR (conj Hp Hs') HF HR) as Hc.
      destruct (collectF stF) as [sF|o sF] eqn:EF;
        destruct (collectR stR) as [sR|o' sR] eqn:ER;
        try contradiction; try exact Hc.
      destruct (Inv_collect _ _ _ _ _ _ _ _ HF EF) as [HF1 Hlen].
      destruct (Inv_collect _ _ _ _ _ _ _ _ HR ER) as [HR1 _].
      apply Hcont; try assumption. intros Hm.
      destruct (inv_bound _ _ _ _ _ HF Hm) as [Hb _]. lia.
    + apply Hcont; try assumption; [exact (conj Hp Hs')|]. intros _.
      rewrite Z.geb_leb in Eg. apply Z.leb_gt in Eg. exact Eg.
Qed.

Lemma drain_sim fuel : forall started stF stR,
  sim stF stR -> I started stF -> I started stR ->
  match drain false sched function forward_exceptions fuel stF,
        drain true fifo function forward_exceptions fuel stR with
  | Next sF, Next sR => same_observations sF sR
  | Halt o sF, Halt o' sR => o = o' /\ same_observations sF sR
  | _, _ => False
  end.
Proof.
  induction fuel as [|fuel IH]; intros started stF stR Hs HF HR; cbn [drain];
    assert (Hobs : same_observations stF stR)
      by (destruct Hs as (? & ? & ? & _); now repeat split);
    assert (Hp : processes stR = processes stF) by (symmetry; apply Hobs);
    rewrite Hp; clear Hp; destruct (processes stF) as [|kv ps]; try exact Hobs.
  - now split.
  - pose proof (collect_sim started stF stR Hs HF HR) as Hc.
    destruct (collectF stF) as [sF|o sF] eqn:EF;
      destruct (collectR stR) as [sR|o' sR] eqn:ER;
      try contradiction; try exact Hc.
    destruct (Inv_collect _ _ _ _ _ _ _ _ HF EF) as [HF1 _].
    destruct (Inv_collect _ _ _ _ _ _ _ _ HR ER) as [HR1 _].
    now apply (IH started).
Qed.

Lemma schedule_workers_sim args_list :
  fst (schedule_workers false sched function forward_exceptions
         args_list with_kwargs max_processes)
  = fst (schedule_workers true fifo function forward_exceptions
           args_list with_kwargs max_processes) /\
  same_observations
    (snd (schedule_workers false sched function forward_exceptions
            args_list with_kwargs max_processes))
    (snd (schedule_workers true fifo function forward_exceptions
            args_list with_kwargs max_processes)).
Proof.
  unfold schedule_workers.
  pose proof (for_jobs_sim args_list [] initial_state initial_state
                ltac:(now repeat split)
                (Inv_initial function forward_exceptions max_processes)
                (Inv_initial function forward_exceptions max_processes)) as H.
  cbn [length] in H.
  destruct (for_jobs false _ _ _ _ _ _ _ _) as [sF|o sF];
    destruct (for_jobs true _ _ _ _ _ _ _ _) as [sR|o' sR]; try contradiction.
  - destruct H as [Hs (started' & HF & HR)].
    pose proof (drain_sim (length (processes sF)) started' sF sR Hs HF HR) as Hd.
    destruct Hs as (Hp & _). rewrite <- Hp.
    destruct (drain false _ _ _ _ sF) as [sF'|o sF'];
      destruct (drain true _ _ _ _ sR) as [sR'|o' sR']; try contradiction.
    + cbn. split; [|exact Hd]. destruct Hd as (_ & -> & _). reflexivity.
    + cbn. destruct Hd as [-> Hd]. now split.
  - cbn. destruct H as [-> H]. now split.
Qed.
End Serialised.

(** ** The claims *)

(** C8, as the code has it: [_proc_f] puts exactly one envelope on the queue
    whatever the function does, and the envelope names the job.  When the
    function returns, the envelope carries the return value and no failure
    payload.  When it raises an [Exception], the envelope carries the error
    with the traceback lines joined by newlines, and no success payload.
    When it raises anything else, the envelope is put all the same, with
    neither payload, and the error leaves [_proc_f]. *)
Theorem proc_f_always_delivers_one_envelope function results_q pid args kwargs :
  exists d,
    fst (_proc_f function results_q pid args kwargs) = results_q ++ [d] /\
    match function args kwargs with
    | Returning v =>
        d = RetDict pid None v /\
        snd (_proc_f function results_q pid args kwargs) = None
    | Raising AnException e tb =>
        d = RetDict pid
              (Some (e, String.concat (String (ascii_of_nat 10) EmptyString) tb))
              PyNone /\
        snd (_proc_f function results_q pid args kwargs) = None
    | Raising NotAnException e tb =>
        d = RetDict pid None PyNone /\
        snd (_proc_f function results_q pid args kwargs) = Some e
    end.
Proof.
  unfold _proc_f.
  destruct (function args kwargs) as [v|[|] e tb]; eexists; split;
    try reflexivity; now split.
Qed.

(** C8, as the claim states it, fails: a job that ends with [sys.exit(1)]
    raises, yet the envelope that [_proc_f] delivers for it carries neither
    the error nor a result, and the error leaves [_proc_f]. *)
Lemma escaping_error_leaves_both_payloads_empty :
  exists d,
    _proc_f exits [] 7 (PyTuple []) (PyDict [])
    = ([d], Some (Exn "SystemExit" [PyInt 1])) /\
    rd_pid d = 7%nat /\ rd_exception d = None /\ rd_result d = PyNone.
Proof. eexists. split; [reflexivity|]. now repeat split. Qed.

(** C1: with a limit of at least one, when every job unpacks and the function
    returns on each, the call returns a list that holds exactly the return
    values of the jobs, one per job, in some order; on the empty job sequence
    the list is empty and no worker is started. *)
Theorem schedule_workers_one_payload_per_job USE_MULTIPROCESSING sched function
    forward_exceptions with_kwargs max_processes args_list vals :
  1 <= max_processes ->
  Forall2 (job_returns function with_kwargs) args_list vals ->
  exists l,
    fst (schedule_workers USE_MULTIPROCESSING sched function forward_exceptions
           args_list with_kwargs max_processes) = Returned l /\
    Permutation l vals /\ length l = length args_list /\
    (args_list = [] ->
     l = [] /\
     started_pids (trace (snd (schedule_workers USE_MULTIPROCESSING sched function
        forward_exceptions args_list with_kwargs max_processes))) = []).
Proof.
  intros Hm HF2. pose proof (Forall2_job_returns _ _ _ _ HF2) as HY.
  destruct (Forall2_job_yields _ _ _ _ HY) as [HF Henv].
  destruct (run_kind USE_MULTIPROCESSING sched function forward_exceptions
              with_kwargs max_processes args_list Hm) as [_ [_ Hk]].
  assert (Hret : kind_of (fst (schedule_workers USE_MULTIPROCESSING sched function
             forward_exceptions args_list with_kwargs max_processes)) = KReturns).
  { apply Hk. split; [exact HF|]. intros _. rewrite Henv.
    apply success_envelopes_Returns. }
  destruct (fst (schedule_workers _ _ _ _ _ _ _)) as [l| | | | |] eqn:E;
    try discriminate Hret.
  exists l. pose proof (returned_payloads _ _ _ _ _ _ _ _ _ E HY) as Hperm.
  rewrite returned_values_Returns in Hperm.
  split; [reflexivity|]. split; [exact Hperm|]. split.
  - rewrite (Permutation_length Hperm). symmetry. eapply Forall2_length; eauto.
  - intros ->. inversion HF2; subst. split; [now apply Permutation_nil|].
    reflexivity.
Qed.

Lemma schedule_workers_one_payload_per_job_witness :
  exists l,
    fst (schedule_workers true lifo return_args true (zip_range 4) false 2)
    = Returned l /\
    Permutation l (zip_range 4) /\ length l = length (zip_range 4) /\
    (zip_range 4 = [] ->
     l = [] /\
     started_pids (trace (snd (schedule_workers true lifo return_args true
                                  (zip_range 4) false 2))) = []).
Proof.
  apply (schedule_workers_one_payload_per_job true lifo return_args true false 2
           (zip_range 4) (zip_range 4)).
  - lia.
  - repeat constructor; eexists; eexists; split; reflexivity.
Defined.



(** C5: with a limit of one, when every job unpacks and the function returns
    on each, the call returns the return values in submission order. *)
Theorem schedule_workers_limit_one_keeps_order USE_MULTIPROCESSING sched function
    forward_exceptions with_kwargs args_list vals :
  Forall2 (job_returns function with_kwargs) args_list vals ->
  fst (schedule_workers USE_MULTIPROCESSING sched function forward_exceptions
         args_list with_kwargs 1) = Returned vals.
Proof.
  intros HF2. pose proof (Forall2_job_returns _ _ _ _ HF2) as HY.
  destruct (Forall2_job_yields _ _ _ _ HY) as [HF Henv].
  destruct (run_kind USE_MULTIPROCESSING sched function forward_exceptions
              with_kwargs 1 args_list ltac:(lia)) as [_ [_ Hk]].
  assert (Hret : kind_of (fst (schedule_workers USE_MULTIPROCESSING sched function
             forward_exceptions args_list with_kwargs 1)) = KReturns).
  { apply Hk. split; [exact HF|]. intros _. rewrite Henv.
    apply success_envelopes_Returns. }
  destruct (fst (schedule_workers _ _ _ _ _ _ _)) as [l| | | | |] eqn:E;
    try discriminate Hret.
  destruct (run_returned _ _ _ _ _ _ _ _ E) as (Hi & _ & Hp & _ & _ & ->).
  pose proof (inv_order _ _ _ _ _ Hi eq_refl) as Ho.
  rewrite Hp, app_nil_r, Henv in Ho. rewrite Ho, returned_values_envelopes.
  now rewrite returned_values_Returns.
Qed.

Lemma schedule_workers_limit_one_keeps_order_witness :
  fst (schedule_workers true lifo return_args true (zip_range 10) false 1)
  = Returned (zip_range 10).
Proof.
  apply (schedule_workers_limit_one_keeps_order true lifo return_args true false
           (zip_range 10) (zip_range 10)).
  repeat constructor; eexists; eexists; split; reflexivity.
Defined.



(** C7: with a limit of at least one, [processes] never holds more handles
    than the limit: not after any of its mutations during the call, and not
    when the call ends. *)
Theorem active_handles_never_exceed_limit USE_MULTIPROCESSING sched function
    forward_exceptions with_kwargs max_processes args_list :
  1 <= max_processes ->
  Forall (fun ks => Z.of_nat (length ks) <= max_processes)
    (snapshots (trace (snd (schedule_workers USE_MULTIPROCESSING sched function
       forward_exceptions args_list with_kwargs max_processes)))) /\
  Z.of_nat (length (processes (snd (schedule_workers USE_MULTIPROCESSING sched
    function forward_exceptions args_list with_kwargs max_processes))))
  <= max_processes.
Proof.
  intros Hm.
  destruct (run_final USE_MULTIPROCESSING sched function forward_exceptions
              with_kwargs max_processes args_list)
    as (started0 & st0 & Hi & Hp & _ & Ht).
  destruct (inv_bound _ _ _ _ _ Hi Hm) as [Hb1 Hb2].
  rewrite Hp. split; [|exact Hb1].
  destruct Ht as [->|(d & _ & ->)]; [exact Hb2|].
  rewrite snapshots_app, snapshots_cons, (proj1 (proj2 (received_terminates _))).
  now rewrite app_nil_r.
Qed.

Lemma active_handles_never_exceed_limit_witness :
  Forall (fun ks => Z.of_nat (length ks) <= 2)
    (snapshots (trace (snd (schedule_workers true lifo (crash_on 3) true
       (zip_range 5) false 2)))) /\
  Z.of_nat (length (processes (snd (schedule_workers true lifo (crash_on 3) true
    (zip_range 5) false 2)))) <= 2.
Proof.
  apply (active_handles_never_exceed_limit true lifo (crash_on 3) true false 2
           (zip_range 5)).
  lia.
Defined.

(** C10: no subscript of [processes] in [collect_result] fails, whatever the
    inputs: the call never ends with a [KeyError], and every envelope that
    the call receives names a job that is a key of [processes] at the moment
    of its receipt. *)
Theorem collect_result_lookups_succeed USE_MULTIPROCESSING sched function
    forward_exceptions with_kwargs max_processes args_list :
  (forall pid,
     fst (schedule_workers USE_MULTIPROCESSING sched function forward_exceptions
            args_list with_kwargs max_processes) <> KeyError pid) /\
  recv_ok [] (trace (snd (schedule_workers USE_MULTIPROCESSING sched function
                            forward_exceptions args_list with_kwargs max_processes))).
Proof.
  destruct (run_final USE_MULTIPROCESSING sched function forward_exceptions
              with_kwargs max_processes args_list)
    as (started0 & st0 & Hi & _ & Hk & Ht).
  split; [exact Hk|].
  destruct Ht as [->|(d & Hin & ->)]; [apply (inv_recv _ _ _ _ _ Hi)|].
  apply recv_ok_app. split; [apply (inv_recv _ _ _ _ _ Hi)|].
  rewrite (inv_last _ _ _ _ _ Hi). cbn [recv_ok]. split.
  - eapply Permutation_in; [symmetry; apply (inv_keys _ _ _ _ _ Hi)|].
    now apply in_map.
  - apply received_terminates.
Qed.

(** C3, as the code has it: when a call re-raises a failure, the envelope of
    that failure is the last one received; after it the scheduler asks every
    handle of [processes] to terminate, in the order of the dictionary and
    with the handle of the reporting worker among them, and does nothing
    else: the reporting worker's handle is still a key of [processes] and has
    never been joined. *)
Theorem failure_terminates_every_handle_and_raises USE_MULTIPROCESSING sched
    function forward_exceptions with_kwargs max_processes args_list e' :
  fst (schedule_workers USE_MULTIPROCESSING sched function forward_exceptions
         args_list with_kwargs max_processes) = Propagated e' ->
  let st := snd (schedule_workers USE_MULTIPROCESSING sched function
                   forward_exceptions args_list with_kwargs max_processes) in
  forward_exceptions = true /\
  exists tr d,
    trace st = tr ++ EvRecv d :: map EvTerminate (PyDictN.keys (processes st)) /\
    is_success d = false /\
    In (rd_pid d) (PyDictN.keys (processes st)) /\
    ~ In (rd_pid d) (joined_pids (trace st)).
Proof.
  intros E st.
  destruct (run_propagated _ _ _ _ _ _ _ e' E)
    as (Hf & started0 & st0 & d & e & tb & Hi & _ & Hin & Hex & _ & Hp & Ht).
  split; [exact Hf|]. exists (trace st0), d. fold st in Hp, Ht.
  assert (Hterm : map (fun kv => EvTerminate (p_pid (snd kv))) (processes st0)
                  = map EvTerminate (PyDictN.keys (processes st0))).
  { unfold PyDictN.keys. rewrite map_map. apply map_ext_in. intros [k p] Hkp.
    cbn [fst snd]. now rewrite (inv_handles _ _ _ _ _ Hi k p Hkp). }
  assert (Hpid : In (rd_pid d) (map rd_pid (pending function st0)))
    by now apply in_map.
  split; [now rewrite Ht, Hp, Hterm|]. split.
  { unfold is_success. now rewrite Hex. }
  split.
  { rewrite Hp. eapply Permutation_in; [symmetry; apply (inv_keys _ _ _ _ _ Hi)|].
    exact Hpid. }
  rewrite Ht, joined_pids_app. intros Hj. apply in_app_or in Hj as [Hj|Hj].
  - pose proof (Inv_pids_NoDup _ _ _ _ _ Hi) as Hnd. rewrite map_app in Hnd.
    exact (NoDup_app_disjoint _ _ _ Hnd (inv_joined _ _ _ _ _ Hi _ Hj) Hpid).
  - cbn [joined_pids flat_map app] in Hj.
    fold (joined_pids (map (fun kv => EvTerminate (p_pid (snd kv))) (processes st0))) in Hj.
    now rewrite (proj1 (proj2 (proj2 (received_terminates _)))) in Hj.
Qed.

Lemma failure_terminates_every_handle_and_raises_witness :
  let st := snd (schedule_workers true fifo crash true (zip_range 2) false 2) in
  true = true /\
  exists tr d,
    trace st = tr ++ EvRecv d :: map EvTerminate (PyDictN.keys (processes st)) /\
    is_success d = false /\
    In (rd_pid d) (PyDictN.keys (processes st)) /\
    ~ In (rd_pid d) (joined_pids (trace st)).
Proof.
  apply (failure_terminates_every_handle_and_raises true fifo crash true false 2
           (zip_range 2)
           (add_args (Exn "CrashException" [PyStr "ouch!"])
              [PyStr "  File test_multiprocessing_scheduler.py, line 45, in crash"])).
  reflexivity.
Defined.

(** C3, as the claim states it, fails: two crashing jobs under a limit of two
    and the first worker reporting first.  The scheduler asks the reporting
    worker 0 to terminate as well, never joins it, and raises while 0 is
    still a key of [processes]. *)
Lemma reporting_worker_terminated_not_joined :
  let r := schedule_workers true fifo crash true (zip_range 2) false 2 in
  kind_of (fst r) = KRaises /\
  received (trace (snd r)) = [envelope_of crash (Proc 0 (PyTuple [PyInt 0]) (PyDict []))] /\
  In (EvTerminate 0) (trace (snd r)) /\
  ~ In (EvJoin 0) (trace (snd r)) /\
  PyDictN.keys (processes (snd r)) = [0%nat; 1%nat].
Proof.
  cbv zeta. repeat split; try reflexivity.
  - vm_compute. tauto.
  - vm_compute. intros H. repeat (destruct H as [H|H]; [discriminate H|]). exact H.
Qed.

(** C4, as the code has it: a limit of zero or less is not rejected.  When
    all jobs unpack, the call returns the empty list on the empty job
    sequence, and on any other it blocks in its first receive, before any
    worker is started: nothing is raised and the state is still the initial
    one. *)
Theorem nonpositive_limit_is_not_rejected USE_MULTIPROCESSING sched function
    forward_exceptions with_kwargs max_processes args_list :
  max_processes <= 0 ->
  Forall (unpackable with_kwargs) args_list ->
  schedule_workers USE_MULTIPROCESSING sched function forward_exceptions
    args_list with_kwargs max_processes
  = (match args_list with [] => Returned [] | _ :: _ => Blocked end, initial_state).
Proof.
  intros Hm HF. rewrite run_nonpositive by exact Hm.
  destruct args_list as [|job rest]; [reflexivity|].
  inversion HF as [|j r (a & k & Hu) _]; subst. now rewrite Hu.
Qed.

Lemma nonpositive_limit_is_not_rejected_witness :
  schedule_workers true fifo return_args true (zip_range 3) false (-2)
  = (Blocked, initial_state).
Proof.
  apply (nonpositive_limit_is_not_rejected true fifo return_args true false (-2)
           (zip_range 3)).
  - lia.
  - repeat constructor; eexists; eexists; reflexivity.
Defined.

(** C4, as the claim states it, fails: with a limit of zero the call raises
    nothing; it blocks on three jobs and returns on none. *)
Lemma zero_limit_raises_nothing :
  fst (schedule_workers true fifo return_args true (zip_range 3) false 0) = Blocked /\
  fst (schedule_workers true fifo return_args true [] false 0) = Returned [] /\
  kind_of (fst (schedule_workers true fifo return_args true (zip_range 3) false 0))
  <> KRaises.
Proof. repeat split; try reflexivity. discriminate. Qed.


(** ** Invariants of one's own

    The two loops keep any property [P] that the body of the first keeps and
    any property [Q] that [P] implies and [collect_result] keeps. *)

Section Ending.
Context (USE_MULTIPROCESSING : bool).
Context (sched : nat -> nat).
Context (function : pyval -> pyval -> call_outcome).
Context (forward_exceptions with_kwargs : bool).
Context (max_processes : Z).
Context (P Q : list proc -> state -> Prop).

Local Abbreviation pend := (pending function).
Local Abbreviation collect :=
  (collect_result USE_MULTIPROCESSING sched function forward_exceptions).
Local Abbreviation I := (Inv function forward_exceptions max_processes).
Local Abbreviation fin :=
  (ended sched function USE_MULTIPROCESSING forward_exceptions with_kwargs
         max_processes P Q).

Hypothesis P_initial : P [] initial_state.
Hypothesis P_body : forall started st st1 args kwargs,
  I started st -> P started st ->
  (st1 = st /\ Z.of_nat (length (processes st)) < max_processes) \/
  (max_processes <= Z.of_nat (length (processes st)) /\ collect st = Next st1) ->
  P (started ++ [Proc (length started) args kwargs])
    (new_process USE_MULTIPROCESSING function (length started) args kwargs st1).
Hypothesis P_Q : forall started st, I started st -> P started st -> Q started st.
Hypothesis Q_collect : forall started st st',
  I started st -> Q started st -> collect st = Next st' -> Q started st'.

Lemma for_jobs_ended total jobs : forall started st,
  I started st -> P started st ->
  job_procs with_kwargs 0 total
  = started ++ job_procs with_kwargs (length started) jobs ->
  (forall i, nth_error total (length started + i) = nth_error jobs i) ->
  length total = (length started + length jobs)%nat ->
  match for_jobs USE_MULTIPROCESSING sched function forward_exceptions
                 with_kwargs max_processes (length started) jobs st with
  | Next st' =>
      I (job_procs with_kwargs 0 total) st' /\
      P (job_procs with_kwargs 0 total) st' /\
      length (job_procs with_kwargs 0 total) = length total
  | Halt o st' =>
      fin total o st' /\ forall l, o <> Returned l
  end.
Proof.
  induction jobs as [|job rest IH]; intros started st H HP Hall Hnth Hlen.
  - cbn [for_jobs]. cbn [job_procs] in Hall. rewrite app_nil_r in Hall.
    rewrite Hall. simpl in Hlen. split; [exact H|]. split; [exact HP|]. lia.
  - cbn [for_jobs]. cbn [job_procs] in Hall.
    destruct (unpack_job with_kwargs job) as [e|[args kwargs]] eqn:Eu.
    { rewrite app_nil_r in Hall. split; [|discriminate].
      exists started, st. split; [exact H|]. split; [now apply P_Q|].
      split; [exists []; now rewrite app_nil_r|].
      split; [reflexivity|]. split; [now symmetry|]. split; [exact HP|].
      exists job. split; [|exact Eu].
      specialize (Hnth 0%nat). now rewrite Nat.add_0_r in Hnth. }
    assert (Hcont : forall st1,
      I started st1 ->
      (1 <= max_processes -> Z.of_nat (length (processes st1)) < max_processes) ->
      P (started ++ [Proc (length started) args kwargs])
        (new_process USE_MULTIPROCESSING function (length started) args kwargs st1) ->
      match for_jobs USE_MULTIPROCESSING sched function forward_exceptions
                     with_kwargs max_processes (S (length started)) rest
                     (new_process USE_MULTIPROCESSING function (length started)
                                  args kwargs st1) with
      | Next st' =>
          I (job_procs with_kwargs 0 total) st' /\
          P (job_procs with_kwargs 0 total) st' /\
          length (job_procs with_kwargs 0 total) = length total
      | Halt o st' => fin total o st' /\ forall l, o <> Returned l
      end).
    { intros st1 H1 Hfree HP1.
      pose proof (Inv_new_process USE_MULTIPROCESSING function forward_exceptions
                    max_processes started st1 args kwargs H1 Hfree) as H2.
      assert (El : length (started ++ [Proc (length started) args kwargs])
                   = S (length started))
        by (rewrite length_app; simpl; lia).
      specialize (IH _ _ H2 HP1). rewrite El in IH. apply IH.
      - now rewrite <- app_assoc.
      - intros i. specialize (Hnth (S i)). cbn [nth_error] in Hnth.
        now rewrite <- Hnth, Nat.add_succ_r.
      - simpl in Hlen. lia. }
    destruct (Z.of_nat (length (processes st)) >=? max_processes) eqn:Eg.
    + apply Z.geb_le in Eg.
      destruct (collect st) as [st1|o st1] eqn:Ec.
      * destruct (Inv_collect _ _ _ _ _ _ _ _ H Ec) as [H1 Hl].
        apply Hcont; [exact H1| |].
        -- intros Hm. destruct (inv_bound _ _ _ _ _ H Hm) as [Hb _]. lia.
        -- apply (P_body started st st1); try assumption. right. now split.
      * assert (Hpre : exists rest0, job_procs with_kwargs 0 total = started ++ rest0)
          by (eexists; exact Hall).
        destruct (collect_halt _ _ _ _ _ _ _ _ _ H Ec)
          as [(-> & -> & Hp)|(d & st2 & e & tb & Hf & Hq & Hin & Hex & -> & ->)].
        -- split; [|discriminate]. exists started, st.
           split; [exact H|]. split; [now apply P_Q|]. split; [exact Hpre|].
           split; [reflexivity|]. split; [|exact Hp].
           rewrite Hp in Eg. simpl in Eg. exact Eg.
        -- split; [|discriminate]. exists started, st.
           split; [exact H|]. split; [now apply P_Q|]. split; [exact Hpre|].
           split; [exact Hf|]. now exists d, st2, e, tb.
    + rewrite Z.geb_leb in Eg. apply Z.leb_gt in Eg.
      apply Hcont; [exact H| |].
      * intros _. exact Eg.
      * apply (P_body started st st); try assumption. left. now split.
Qed.

Lemma drain_ended total fuel : forall st,
  I (job_procs with_kwargs 0 total) st -> Q (job_procs with_kwargs 0 total) st ->
  length (job_procs with_kwargs 0 total) = length total ->
  (length (processes st) <= fuel)%nat ->
  match drain USE_MULTIPROCESSING sched function forward_exceptions fuel st with
  | Next st' => fin total (Returned (results st')) st'
  | Halt o st' => fin total o st' /\ forall l, o <> Returned l
  end.
Proof.
  induction fuel as [|fuel IH]; intros st H HQ Hall Hlen; cbn [drain];
    destruct (processes st) as [|kv ps] eqn:Ep;
    try (simpl in Hlen; lia);
    try (exists (job_procs with_kwargs 0 total), st;
         split; [exact H|]; split; [exact HQ|];
         split; [exists []; now rewrite app_nil_r|]; now repeat split).
  destruct (collect st) as [st1|o st1] eqn:Ec.
  - destruct (Inv_collect _ _ _ _ _ _ _ _ H Ec) as [H1 Hl].
    apply IH; try assumption.
    + exact (Q_collect _ _ _ H HQ Ec).
    + rewrite Ep in Hl. simpl in *. lia.
  - destruct (collect_halt _ _ _ _ _ _ _ _ _ H Ec)
      as [(_ & _ & Hp)|(d & st2 & e & tb & Hf & Hq & Hin & Hex & -> & ->)];
      [congruence|].
    split; [|discriminate]. exists (job_procs with_kwargs 0 total), st.
    split; [exact H|]. split; [exact HQ|].
    split; [exists []; now rewrite app_nil_r|].
    split; [exact Hf|]. now exists d, st2, e, tb.
Qed.

(** Every way in which a call can end, with [Q] at the end. *)
Lemma run_ended args_list :
  fin args_list
    (fst (schedule_workers USE_MULTIPROCESSING sched function forward_exceptions
            args_list with_kwargs max_processes))
    (snd (schedule_workers USE_MULTIPROCESSING sched function forward_exceptions
            args_list with_kwargs max_processes)).
Proof.
  unfold schedule_workers.
  pose proof (for_jobs_ended args_list args_list [] initial_state
                (Inv_initial function forward_exceptions max_processes)
                P_initial eq_refl (fun i => eq_refl) eq_refl) as Hf.
  cbn [length] in Hf.
  destruct (for_jobs _ _ _ _ _ _ _ args_list _) as [st|o st].
  - destruct Hf as (H & HP & Hl).
    pose proof (drain_ended args_list (length (processes st)) st H
                  (P_Q _ _ H HP) Hl (Nat.le_refl _)) as Hd.
    destruct (drain _ _ _ _ _ st) as [st'|o st']; cbn; [exact Hd|apply Hd].
  - cbn. apply Hf.
Qed.
End Ending.

(** ** The shape of one step *)

Lemma terminated_pids_app tr1 tr2 :
  terminated_pids (tr1 ++ tr2) = terminated_pids tr1 ++ terminated_pids tr2.
Proof. apply flat_map_app. Qed.

Lemma released_after_receipt_app c tr1 : forall seen tr2,
  released_after_receipt c seen (tr1 ++ tr2) <->
  released_after_receipt c seen tr1 /\
  released_after_receipt c (rev (map rd_pid (received tr1)) ++ seen) tr2.
Proof.
  induction tr1 as [|ev tr1 IH]; intros seen tr2.
  - simpl. tauto.
  - destruct ev; cbn [app released_after_receipt]; rewrite IH;
      cbn [received flat_map app map rev]; rewrite <- ?app_assoc; cbn [app]; tauto.
Qed.

Lemma released_after_receipt_weaken tr : forall seen,
  released_after_receipt true seen tr -> released_after_receipt false seen tr.
Proof.
  induction tr as [|ev tr IH]; intros seen; [trivial|].
  destruct ev; cbn [released_after_receipt]; intros H;
    try (now apply IH); destruct H as [H1 H2]; (split; [|now apply IH]).
  - discriminate.
  - exact H1.
Qed.

Lemma released_terminates (l : list (nat * proc)) seen :
  released_after_receipt false seen
    (map (fun kv => EvTerminate (p_pid (snd kv))) l).
Proof.
  induction l as [|kv l IH]; cbn; [trivial|]. split; [discriminate|exact IH].
Qed.

Lemma job_procs_length with_kwargs jobs : forall pid,
  (length (job_procs with_kwargs pid jobs) <= length jobs)%nat.
Proof.
  induction jobs as [|job rest IH]; intros pid; cbn [job_procs]; [simpl; lia|].
  destruct (unpack_job with_kwargs job) as [e|[a k]]; simpl.
  - lia.
  - specialize (IH (S pid)). lia.
Qed.

Section Steps.
Context (USE_MULTIPROCESSING : bool).
Context (sched : nat -> nat).
Context (function : pyval -> pyval -> call_outcome).
Context (forward_exceptions with_kwargs : bool).
Context (max_processes : Z).

Local Abbreviation pend := (pending function).
Local Abbreviation env := (envelope_of function).
Local Abbreviation collect :=
  (collect_result USE_MULTIPROCESSING sched function forward_exceptions).
Local Abbreviation I := (Inv function forward_exceptions max_processes).

(** A [collect_result] that comes back: what it received and what it did. *)
Lemma collect_next_shape started st st' :
  I started st -> collect st = Next st' ->
  exists d st1 l1 l2,
    q_get sched function st = Some (d, st1) /\
    pend st = l1 ++ d :: l2 /\ pend st' = l1 ++ l2 /\
    (is_success d = true \/ forward_exceptions = false) /\
    PyDictN.del (processes st) (rd_pid d) = Some (processes st') /\
    results_q st' = results_q st1 /\ running st' = running st1 /\
    results st' = results st ++ (if is_success d then [rd_result d] else []) /\
    trace st' = trace st ++ [EvRecv d; EvJoin (rd_pid d); EvTerminate (rd_pid d);
                             EvProcesses (PyDictN.keys (processes st'))].
Proof.
  intros H Hc.
  destruct (collect_result_cases USE_MULTIPROCESSING sched function
              forward_exceptions st (Inv_in_sync _ _ _ _ _ H))
    as [[_ Hb]|(d & st1 & l1 & l2 & Hq & E & E1 & [(e & tb & _ & _ & Hh)|(Hs & ps' & Hdel & Hn)])];
    [congruence | congruence |].
  rewrite Hn in Hc. injection Hc as <-.
  exists d, st1, l1, l2. cbn [processes results_q results running trace].
  repeat match goal with |- _ /\ _ => split end; try assumption; reflexivity.
Qed.

(** [new_process]: what it logs and where the new envelope waits. *)
Lemma new_process_shape pid args kwargs st :
  let st' := new_process USE_MULTIPROCESSING function pid args kwargs st in
  processes st' = PyDictN.set (processes st) pid (Proc pid args kwargs) /\
  results st' = results st /\
  trace st' = trace st ++ [EvStart pid; EvProcesses (PyDictN.keys (processes st'))] /\
  (USE_MULTIPROCESSING = true ->
   results_q st' = results_q st /\
   running st' = running st ++ [Proc pid args kwargs]) /\
  (USE_MULTIPROCESSING = false ->
   results_q st' = results_q st ++ [env (Proc pid args kwargs)] /\
   running st' = running st).
Proof.
  unfold new_process, start, with_processes, with_running, with_results_q, log.
  destruct USE_MULTIPROCESSING;
    cbn [processes results_q results running clock trace p_pid];
    rewrite ?run_target_put, <- ?app_assoc;
    repeat match goal with |- _ /\ _ => split end;
    try reflexivity; try discriminate; intros _; now split.
Qed.

(** The rule of the section [Ending] for a property that both
    [collect_result] and [new_process] keep. *)
Lemma run_ended_simple (P : list proc -> state -> Prop) args_list :
  P [] initial_state ->
  (forall started st st',
     I started st -> P started st -> collect st = Next st' -> P started st') ->
  (forall started st args kwargs,
     I started st -> P started st ->
     (1 <= max_processes -> Z.of_nat (length (processes st)) < max_processes) ->
     P (started ++ [Proc (length started) args kwargs])
       (new_process USE_MULTIPROCESSING function (length started) args kwargs st)) ->
  ended sched function USE_MULTIPROCESSING forward_exceptions with_kwargs
        max_processes P P args_list
    (fst (schedule_workers USE_MULTIPROCESSING sched function forward_exceptions
            args_list with_kwargs max_processes))
    (snd (schedule_workers USE_MULTIPROCESSING sched function forward_exceptions
            args_list with_kwargs max_processes)).
Proof.
  intros Hinit Hcol Hnew.
  apply (run_ended USE_MULTIPROCESSING sched function forward_exceptions
           with_kwargs max_processes P P); try assumption; [|auto].
  intros started st st1 args kwargs H HP [[-> Hlt]|[Hge Hc]].
  - apply Hnew; auto.
  - destruct (Inv_collect _ _ _ _ _ _ _ _ H Hc) as [H1 Hl].
    apply Hnew; [exact H1 | exact (Hcol _ _ _ H HP Hc) |].
    intros Hm. destruct (inv_bound _ _ _ _ _ H Hm) as [Hb _]. lia.
Qed.

(** The final log of a call, from the log of the state in which its last
    statement started. *)
Lemma ended_trace P Q args_list o st' :
  ended sched function USE_MULTIPROCESSING forward_exceptions with_kwargs
        max_processes P Q args_list o st' ->
  exists started0 st0,
    I started0 st0 /\ Q started0 st0 /\
    (length started0 <= length args_list)%nat /\
    processes st' = processes st0 /\
    match o with
    | Propagated _ =>
        exists d, In d (pend st0) /\ is_success d = false /\
          trace st' = trace st0 ++ EvRecv d
            :: map (fun kv => EvTerminate (p_pid (snd kv))) (processes st0)
    | _ => st' = st0
    end.
Proof.
  intros (started0 & st0 & H & HQ & [rest Hall] & Ho). exists started0, st0.
  assert (Hlen : (length started0 <= length args_list)%nat).
  { pose proof (job_procs_length with_kwargs args_list 0) as Hl.
    rewrite Hall, length_app in Hl. lia. }
  split; [exact H|]. split; [exact HQ|]. split; [exact Hlen|].
  destruct o as [l|e'|e| | |]; try (destruct Ho as [-> _]; now split);
    try contradiction.
  destruct Ho as (_ & d & st1 & e & tb & Hq & Hin & Hex & _ & ->).
  destruct (q_get_Some _ _ _ _ _ Hq) as (_ & _ & _ & _ & Eps & _ & Etr & _).
  destruct (terminate_all_fields USE_MULTIPROCESSING (log (EvRecv d) st1))
    as (Hp & _ & Ht).
  cbn [processes trace log] in Hp, Ht. rewrite Eps in Hp, Ht.
  rewrite Etr, <- app_assoc in Ht. split; [exact Hp|].
  exists d. split; [exact Hin|]. split; [|exact Ht].
  unfold is_success. now rewrite Hex.
Qed.
End Steps.

(** ** Starting, receiving and releasing *)

Section Lifecycle.
Context (USE_MULTIPROCESSING : bool).
Context (sched : nat -> nat).
Context (function : pyval -> pyval -> call_outcome).
Context (forward_exceptions with_kwargs : bool).
Context (max_processes : Z).
Context (args_list : list pyval).

Local Abbreviation pend := (pending function).
Local Abbreviation env := (envelope_of function).
Local Abbreviation I := (Inv function forward_exceptions max_processes).
Local Abbreviation run :=
  (schedule_workers USE_MULTIPROCESSING sched function forward_exceptions
                    args_list with_kwargs max_processes).

(** Between two statements of the loops, the handles joined and the handles
    asked to terminate are those of the envelopes received, in that order. *)
Lemma run_release_log :
  ended sched function USE_MULTIPROCESSING forward_exceptions with_kwargs
        max_processes release_log_inv release_log_inv
        args_list (fst run) (snd run).
Proof.
  apply run_ended_simple.
  - cbn. now repeat split.
  - intros started st st' H (Hj & Ht & Hr) Hc.
    destruct (collect_next_shape _ _ _ _ _ _ _ _ H Hc)
      as (d & _ & _ & _ & _ & _ & _ & _ & _ & _ & _ & _ & Etr).
    unfold release_log_inv. rewrite Etr.
    rewrite joined_pids_app, terminated_pids_app, received_app, map_app, Hj, Ht.
    cbn [joined_pids terminated_pids received flat_map app map].
    repeat split. apply released_after_receipt_app. split; [exact Hr|].
    cbn [released_after_receipt]. rewrite app_nil_r.
    repeat split; intros; now left.
  - intros started st args kwargs H (Hj & Ht & Hr) _.
    destruct (new_process_shape USE_MULTIPROCESSING function (length started)
                args kwargs st) as (_ & _ & Etr & _).
    unfold release_log_inv. rewrite Etr.
    rewrite joined_pids_app, terminated_pids_app, received_app, Hj, Ht.
    cbn [joined_pids terminated_pids received flat_map app]. rewrite !app_nil_r.
    repeat split. apply released_after_receipt_app. split; [exact Hr|].
    now cbn.
Qed.

(** When a call returns, nothing is pending. *)
Lemma returned_nothing_pending l :
  fst run = Returned l ->
  processes (snd run) = [] /\ results_q (snd run) = [] /\ running (snd run) = [] /\
  Permutation (map rd_pid (received (trace (snd run)))) (seq 0 (length args_list)).
Proof.
  intros E.
  pose proof (run_ended_simple USE_MULTIPROCESSING sched function
                forward_exceptions with_kwargs max_processes
                no_inv args_list Logic.I
                (fun _ _ _ _ _ _ => Logic.I) (fun _ _ _ _ _ _ _ => Logic.I)) as H.
  rewrite E in H.
  destruct H as (started0 & st0 & Hi & _ & _ & -> & _ & Hlen & Hp & _).
  assert (Hpend : pend st0 = []).
  { pose proof (inv_keys _ _ _ _ _ Hi) as Hk. rewrite Hp in Hk.
    apply Permutation_nil in Hk. now apply map_eq_nil in Hk. }
  pose proof Hpend as Hq. unfold pending in Hq. apply app_eq_nil in Hq as [Hq Hr].
  apply map_eq_nil in Hr.
  repeat split; try assumption.
  pose proof (inv_all _ _ _ _ _ Hi) as Ha. rewrite Hpend, app_nil_r in Ha.
  rewrite <- Hlen, <- (inv_ids _ _ _ _ _ Hi),
          <- (map_rd_pid_envelope_of function).
  now apply Permutation_map.
Qed.
End Lifecycle.

(** X1: the list that a call returns is in order of arrival: it holds the
    results of the successful envelopes in the order in which the call
    received them, and the envelopes received are those of the jobs, each
    once. *)
Theorem returned_list_is_in_arrival_order USE_MULTIPROCESSING sched function
    forward_exceptions with_kwargs max_processes args_list outs l :
  fst (schedule_workers USE_MULTIPROCESSING sched function forward_exceptions
         args_list with_kwargs max_processes) = Returned l ->
  Forall2 (job_yields function with_kwargs) args_list outs ->
  let tr := trace (snd (schedule_workers USE_MULTIPROCESSING sched function
                          forward_exceptions args_list with_kwargs max_processes)) in
  l = map rd_result (filter is_success (received tr)) /\
  Permutation (received tr) (envelopes_from 0 outs).
Proof.
  intros E HY tr. destruct (Forall2_job_yields _ _ _ _ HY) as [_ Henv].
  destruct (run_returned _ _ _ _ _ _ _ _ E) as (_ & _ & _ & _ & Hperm & Hl).
  split; [exact Hl|]. now rewrite <- Henv.
Qed.

Lemma returned_list_is_in_arrival_order_witness :
  let tr := trace (snd (schedule_workers true lifo (crash_on 1) false
                          (zip_range 4) false 2)) in
  [PyTuple [PyInt 2]; PyTuple [PyInt 3]; PyTuple [PyInt 0]]
  = map rd_result (filter is_success (received tr)) /\
  Permutation (received tr)
    (envelopes_from 0 (map (fun job => crash_on 1 job (PyDict [])) (zip_range 4))).
Proof.
  apply (returned_list_is_in_arrival_order true lifo (crash_on 1) false false 2
           (zip_range 4)).
  - reflexivity.
  - repeat constructor; eexists; eexists; split; reflexivity.
Defined.

(** X2: in every call the workers are started for the jobs 0, 1, 2, ... in
    this order, each at most once and none for a job that was not submitted;
    when the call returns, a worker was started for every job. *)
Theorem workers_started_once_in_order USE_MULTIPROCESSING sched function
    forward_exceptions with_kwargs max_processes args_list :
  exists n,
    (n <= length args_list)%nat /\
    started_pids (trace (snd (schedule_workers USE_MULTIPROCESSING sched function
       forward_exceptions args_list with_kwargs max_processes))) = seq 0 n /\
    match fst (schedule_workers USE_MULTIPROCESSING sched function
                 forward_exceptions args_list with_kwargs max_processes) with
    | Returned _ => n = length args_list
    | _ => True
    end.
Proof.
  pose proof (run_ended_simple USE_MULTIPROCESSING sched function
                forward_exceptions with_kwargs max_processes
                no_inv args_list Logic.I
                (fun _ _ _ _ _ _ => Logic.I) (fun _ _ _ _ _ _ _ => Logic.I)) as H.
  destruct (ended_trace _ _ _ _ _ _ _ _ _ _ _ H)
    as (started0 & st0 & Hi & _ & Hlen & _ & Ht).
  exists (length started0). split; [exact Hlen|].
  assert (Hs : started_pids (trace st0) = seq 0 (length started0))
    by (rewrite (inv_started _ _ _ _ _ Hi); apply (inv_ids _ _ _ _ _ Hi)).
  destruct (fst (schedule_workers _ _ _ _ _ _ _)) as [l|e'|e| | |];
    try (rewrite Ht; now split).
  - destruct H as (s0 & t0 & Hi0 & _ & _ & Et & _ & Hl0 & _).
    rewrite Ht. split; [exact Hs|].
    assert (E0 : st0 = t0) by congruence. rewrite <- E0 in Hi0.
    assert (H1 : length (started_pids (trace st0)) = length started0)
      by (rewrite Hs; apply length_seq).
    assert (H2 : length (started_pids (trace st0)) = length s0)
      by (rewrite (inv_started _ _ _ _ _ Hi0); apply length_map).
    congruence.
  - destruct Ht as (d & _ & _ & ->). split; [|exact Logic.I].
    rewrite started_pids_app. cbn [started_pids flat_map app].
    fold (started_pids (map (fun kv => EvTerminate (p_pid (snd kv))) (processes st0))).
    rewrite (proj1 (proj2 (proj2 (proj2 (received_terminates _))))).
    now rewrite app_nil_r.
Qed.

(** X3: when a call returns, nothing is left behind: [processes] is empty,
    the queue is empty, no worker runs, and the handles were joined, and
    asked to terminate, once each in the order in which their envelopes
    arrived, one for every submitted job. *)
Theorem returned_call_leaves_nothing_behind USE_MULTIPROCESSING sched function
    forward_exceptions with_kwargs max_processes args_list l :
  fst (schedule_workers USE_MULTIPROCESSING sched function forward_exceptions
         args_list with_kwargs max_processes) = Returned l ->
  let st := snd (schedule_workers USE_MULTIPROCESSING sched function
                   forward_exceptions args_list with_kwargs max_processes) in
  processes st = [] /\ results_q st = [] /\ running st = [] /\
  joined_pids (trace st) = map rd_pid (received (trace st)) /\
  terminated_pids (trace st) = map rd_pid (received (trace st)) /\
  Permutation (joined_pids (trace st)) (seq 0 (length args_list)).
Proof.
  intros E st.
  destruct (returned_nothing_pending _ _ _ _ _ _ _ _ E) as (Hp & Hq & Hr & Hperm).
  pose proof (run_release_log USE_MULTIPROCESSING sched function
                forward_exceptions with_kwargs max_processes args_list) as H.
  rewrite E in H. destruct H as (s0 & t0 & _ & (Hj & Ht & _) & _ & Est & _).
  fold st in Est, Hp, Hq, Hr, Hperm. rewrite <- Est in Hj, Ht.
  repeat split; try assumption. now rewrite Hj.
Qed.

Lemma returned_call_leaves_nothing_behind_witness :
  let st := snd (schedule_workers true lifo (crash_on 1) false
                   (zip_range 4) false 2) in
  processes st = [] /\ results_q st = [] /\ running st = [] /\
  joined_pids (trace st) = map rd_pid (received (trace st)) /\
  terminated_pids (trace st) = map rd_pid (received (trace st)) /\
  Permutation (joined_pids (trace st)) (seq 0 (length (zip_range 4))).
Proof.
  apply (returned_call_leaves_nothing_behind true lifo (crash_on 1) false false 2
           (zip_range 4)
           [PyTuple [PyInt 2]; PyTuple [PyInt 3]; PyTuple [PyInt 0]]).
  reflexivity.
Defined.

(** X4: a handle is joined only after the envelope of its worker has been
    received, in every call; and unless the call re-raises a failure, a
    handle is asked to terminate only then, too. *)
Theorem handles_released_after_receipt USE_MULTIPROCESSING sched function
    forward_exceptions with_kwargs max_processes args_list :
  released_after_receipt false []
    (trace (snd (schedule_workers USE_MULTIPROCESSING sched function
                   forward_exceptions args_list with_kwargs max_processes))) /\
  match fst (schedule_workers USE_MULTIPROCESSING sched function
               forward_exceptions args_list with_kwargs max_processes) with
  | Propagated _ => True
  | _ =>
      released_after_receipt true []
        (trace (snd (schedule_workers USE_MULTIPROCESSING sched function
                       forward_exceptions args_list with_kwargs max_processes)))
  end.
Proof.
  pose proof (run_release_log USE_MULTIPROCESSING sched function
                forward_exceptions with_kwargs max_processes args_list) as H.
  destruct (ended_trace _ _ _ _ _ _ _ _ _ _ _ H)
    as (started0 & st0 & _ & (_ & _ & Hr) & _ & _ & Ht).
  destruct (fst (schedule_workers _ _ _ _ _ _ _)) as [l|e'|e| | |];
    try (rewrite Ht; split;
         [now apply released_after_receipt_weaken | exact Hr]).
  destruct Ht as (d & _ & _ & ->). split; [|exact I].
  apply released_after_receipt_app.
  split; [now apply released_after_receipt_weaken|].
  cbn [released_after_receipt]. apply released_terminates.
Qed.

(** ** Order of arrival under [FakeProcess] and under a limit of one *)

Lemma envelopes_from_app outs1 : forall pid outs2,
  envelopes_from pid (outs1 ++ outs2)
  = envelopes_from pid outs1 ++ envelopes_from (pid + length outs1) outs2.
Proof.
  induction outs1 as [|o outs1 IH]; intros pid outs2; cbn [app envelopes_from length].
  - now rewrite Nat.add_0_r.
  - now rewrite IH, Nat.add_succ_r.
Qed.

Lemma envelopes_from_length outs : forall pid,
  length (envelopes_from pid outs) = length outs.
Proof.
  induction outs as [|o outs IH]; intros pid; simpl; [reflexivity|]. now rewrite IH.
Qed.

Lemma success_envelopes_not_raised outs : forall pid,
  ~ Exists raised outs ->
  Forall (fun d => is_success d = true) (envelopes_from pid outs).
Proof.
  induction outs as [|o outs IH]; intros pid Hn; cbn [envelopes_from]; constructor.
  - destruct o; [reflexivity|]. exfalso. apply Hn. now left.
  - apply IH. intros HE. apply Hn. now right.
Qed.

(** The first failure of a list of envelopes is where it is. *)
Lemma first_failure_unique (a1 : list retdict) : forall a2 x y b1 b2,
  a1 ++ x :: b1 = a2 ++ y :: b2 ->
  Forall (fun d => is_success d = true) a1 ->
  Forall (fun d => is_success d = true) a2 ->
  is_success x = false -> is_success y = false ->
  a1 = a2 /\ x = y /\ b1 = b2.
Proof.
  induction a1 as [|u a1 IH]; intros [|v a2] x y b1 b2 E H1 H2 Hx Hy;
    cbn [app] in E; injection E as E0 E.
  - now subst.
  - subst. inversion H2; congruence.
  - subst. inversion H1; congruence.
  - inversion H1; inversion H2; subst.
    destruct (IH _ _ _ _ _ E) as (-> & -> & ->); auto.
Qed.

Lemma q_get_queue sched function st d st1 :
  running st = [] -> q_get sched function st = Some (d, st1) ->
  results_q st = d :: results_q st1 /\ running st1 = [].
Proof.
  unfold q_get. intros Hr.
  destruct (results_q st) as [|d0 q]; [rewrite Hr; discriminate|].
  intros H. injection H as <- <-. now split.
Qed.

Section Serial.
Context (sched : nat -> nat).
Context (function : pyval -> pyval -> call_outcome).
Context (forward_exceptions with_kwargs : bool).
Context (max_processes : Z).
Context (args_list : list pyval).

Local Abbreviation env := (envelope_of function).

(** Under [FakeProcess] no worker ever runs on its own, and the envelopes
    received and queued are those of the handles created, in their order. *)
Lemma run_fake_order :
  ended sched function false forward_exceptions with_kwargs max_processes
        (fake_order_inv function) (fake_order_inv function)
        args_list
        (fst (schedule_workers false sched function forward_exceptions
                args_list with_kwargs max_processes))
        (snd (schedule_workers false sched function forward_exceptions
                args_list with_kwargs max_processes)).
Proof.
  apply run_ended_simple.
  - now split.
  - intros started st st' H (Hr & Ho) Hc.
    destruct (collect_next_shape _ _ _ _ _ _ _ _ H Hc)
      as (d & st1 & _ & _ & Hq & _ & _ & _ & _ & Eq1 & Er1 & _ & Etr).
    destruct (q_get_queue _ _ _ _ _ Hr Hq) as [Eq Hr1].
    unfold fake_order_inv. rewrite Eq1, Er1, Etr.
    split; [exact Hr1|]. rewrite received_app. cbn [received flat_map app].
    now rewrite <- app_assoc, <- Ho, Eq.
  - intros started st args kwargs H (Hr & Ho) _.
    destruct (new_process_shape false function (length started) args kwargs st)
      as (_ & _ & Etr & _ & Hf).
    destruct (Hf eq_refl) as [Eq1 Er1].
    unfold fake_order_inv. rewrite Eq1, Er1, Etr. split; [exact Hr|].
    rewrite received_app. cbn [received flat_map app].
    now rewrite app_nil_r, app_assoc, Ho, map_app.
Qed.
End Serial.

(** X5: under [FakeProcess] the returned list is in submission order for
    every limit of at least one: when all jobs unpack and no failure is to be
    propagated, the call returns the values of the jobs on which the function
    returned, in the order of the jobs. *)
Theorem fake_process_keeps_submission_order sched function forward_exceptions
    with_kwargs max_processes args_list outs :
  1 <= max_processes ->
  Forall2 (job_yields function with_kwargs) args_list outs ->
  (forward_exceptions = true -> ~ Exists raised outs) ->
  fst (schedule_workers false sched function forward_exceptions
         args_list with_kwargs max_processes)
  = Returned (returned_values outs).
Proof.
  intros Hm HY Hno. destruct (Forall2_job_yields _ _ _ _ HY) as [HF Henv].
  destruct (run_kind false sched function forward_exceptions
              with_kwargs max_processes args_list Hm) as [_ [_ Hk]].
  assert (Hret : kind_of (fst (schedule_workers false sched function
             forward_exceptions args_list with_kwargs max_processes)) = KReturns).
  { apply Hk. split; [exact HF|]. intros Hf. rewrite Henv.
    now apply success_envelopes_not_raised, Hno. }
  pose proof (run_fake_order sched function forward_exceptions with_kwargs
                max_processes args_list) as H.
  destruct (fst (schedule_workers _ _ _ _ _ _ _)) as [l| | | | |];
    try discriminate Hret.
  destruct H as (started0 & st0 & Hi & (Hr & Ho) & _ & _ & -> & _ & Hp & ->).
  pose proof (inv_keys _ _ _ _ _ Hi) as Hkeys. rewrite Hp in Hkeys.
  apply Permutation_nil, map_eq_nil in Hkeys. unfold pending in Hkeys.
  apply app_eq_nil in Hkeys as [Hq _]. rewrite Hq, app_nil_r, Henv in Ho.
  now rewrite (inv_results _ _ _ _ _ Hi), Ho, returned_values_envelopes.
Qed.

Lemma fake_process_keeps_submission_order_witness :
  fst (schedule_workers false lifo (crash_on 2) false (zip_range 5) false 3)
  = Returned (returned_values
                (map (fun job => crash_on 2 job (PyDict [])) (zip_range 5))).
Proof.
  apply (fake_process_keeps_submission_order lifo (crash_on 2) false false 3
           (zip_range 5)).
  - lia.
  - repeat constructor; eexists; eexists; split; reflexivity.
  - discriminate.
Defined.







(** ** The window *)

Lemma countdown_S a j : countdown a (S j) = countdown a j ++ [(a - S j)%nat].
Proof. unfold countdown. now rewrite seq_S, map_app. Qed.

Lemma sizes_app_snapshot st st' evs ks :
  trace st' = trace st ++ evs -> snapshots evs = [ks] ->
  sizes st' = sizes st ++ [length ks].
Proof.
  intros Ht H. unfold sizes. now rewrite Ht, snapshots_app, map_app, H.
Qed.

Section Window.
Context (USE_MULTIPROCESSING : bool).
Context (sched : nat -> nat).
Context (function : pyval -> pyval -> call_outcome).
Context (forward_exceptions with_kwargs : bool).
Context (max_processes : Z).

Local Abbreviation I := (Inv function forward_exceptions max_processes).
Local Abbreviation collect :=
  (collect_result USE_MULTIPROCESSING sched function forward_exceptions).

(** The identifier of the next job is not yet a key of [processes]. *)
Lemma Inv_fresh started st :
  I started st -> ~ In (length started) (PyDictN.keys (processes st)).
Proof.
  intros H Hin.
  assert (Hin' : In (length started) (map p_pid started)).
  { rewrite <- map_rd_pid_envelope_of with (function := function).
    eapply Permutation_in; [apply Permutation_map, (inv_all _ _ _ _ _ H)|].
    rewrite map_app, in_app_iff. right.
    eapply Permutation_in; [apply (inv_keys _ _ _ _ _ H)|exact Hin]. }
  rewrite (inv_ids _ _ _ _ _ H), in_seq in Hin'. lia.
Qed.

Lemma new_process_sizes started st args kwargs :
  I started st ->
  let st' := new_process USE_MULTIPROCESSING function (length started)
               args kwargs st in
  length (processes st') = S (length (processes st)) /\
  sizes st' = sizes st ++ [S (length (processes st))].
Proof.
  intros H st'.
  destruct (new_process_shape USE_MULTIPROCESSING function (length started)
              args kwargs st) as (Ep & _ & Et & _).
  fold st' in Ep, Et.
  assert (El : length (processes st') = S (length (processes st))).
  { rewrite Ep, (PyDictFacts.set_fresh _ _ _ (Inv_fresh _ _ H)), length_app.
    simpl. lia. }
  split; [exact El|].
  rewrite (sizes_app_snapshot _ _ _ _ Et eq_refl).
  unfold PyDictN.keys. now rewrite length_map, El.
Qed.

Lemma collect_sizes started st st' :
  I started st -> collect st = Next st' ->
  length (processes st) = S (length (processes st')) /\
  sizes st' = sizes st ++ [length (processes st')].
Proof.
  intros H Hc. destruct (Inv_collect _ _ _ _ _ _ _ _ H Hc) as [_ Hl].
  destruct (collect_next_shape _ _ _ _ _ _ _ _ H Hc)
    as (d & _ & _ & _ & _ & _ & _ & _ & _ & _ & _ & _ & Et).
  split; [exact Hl|]. rewrite (sizes_app_snapshot _ _ _ _ Et eq_refl).
  unfold PyDictN.keys. now rewrite length_map.
Qed.

Lemma run_window args_list :
  ended sched function USE_MULTIPROCESSING forward_exceptions with_kwargs
        max_processes (window_head_inv max_processes)
        (window_drain_inv max_processes) args_list
    (fst (schedule_workers USE_MULTIPROCESSING sched function forward_exceptions
            args_list with_kwargs max_processes))
    (snd (schedule_workers USE_MULTIPROCESSING sched function forward_exceptions
            args_list with_kwargs max_processes)).
Proof.
  apply run_ended.
  - now split.
  - intros started st st1 args kwargs H (Hs & Hl) Hcase.
    unfold window_head_inv. rewrite length_app. cbn [length fill_sizes].
    rewrite Nat.add_1_r. cbn [fill_sizes].
    destruct Hcase as [[-> Hlt]|[Hge Hc]].
    + destruct (new_process_sizes started st args kwargs H) as [-> ->].
      rewrite Hs, Hl.
      assert (Hk : (length started < Z.to_nat max_processes)%nat) by lia.
      apply Nat.ltb_lt in Hk as Hb. rewrite Hb. split; [f_equal; f_equal|]; lia.
    + destruct (Inv_collect _ _ _ _ _ _ _ _ H Hc) as [H1 _].
      destruct (collect_sizes _ _ _ H Hc) as [El Es].
      destruct (new_process_sizes started st1 args kwargs H1) as [-> ->].
      assert (Hm : 1 <= max_processes) by lia.
      destruct (inv_bound _ _ _ _ _ H Hm) as [Hb _].
      assert (Hk : (Z.to_nat max_processes <= length started)%nat) by lia.
      apply Nat.ltb_ge in Hk as Hb'. rewrite Hb', Es, Hs, <- app_assoc.
      split; [f_equal; cbn [app]; f_equal; [|f_equal]|]; lia.
  - intros started st _ (Hs & Hl). exists 0%nat.
    split; [lia|]. split; [lia|]. cbn. now rewrite app_nil_r.
  - intros started st st' H (j & Hj & Hl & Hs) Hc.
    destruct (collect_sizes _ _ _ H Hc) as [El Es].
    exists (S j). split; [lia|]. split; [lia|].
    rewrite Es, Hs, countdown_S, <- app_assoc. do 3 f_equal. lia.
Qed.
End Window.

Lemma job_procs_stop with_kwargs good bad rest e : forall pid,
  Forall (unpackable with_kwargs) good ->
  unpack_job with_kwargs bad = inl e ->
  job_procs with_kwargs pid (good ++ bad :: rest) = job_procs with_kwargs pid good /\
  length (job_procs with_kwargs pid good) = length good.
Proof.
  intros pid HF. revert pid.
  induction HF as [|job good (a & k & Hu) _ IH]; intros pid Hb;
    cbn [app job_procs length].
  - now rewrite Hb.
  - rewrite Hu. destruct (IH (S pid) Hb) as [E1 E2]. rewrite E1.
    cbn [length]. now rewrite E2.
Qed.

(** X9: a job that does not unpack makes the call raise the unpacking error
    before any worker is started for that job or a later one; the workers of
    the jobs before it were started, and as many of their handles as the
    window holds are still in [processes] when the call raises, none of
    them joined. *)
Theorem malformed_job_raises_and_abandons_workers USE_MULTIPROCESSING sched
    function forward_exceptions with_kwargs max_processes good bad rest outs e :
  1 <= max_processes ->
  Forall2 (job_yields function with_kwargs) good outs ->
  unpack_job with_kwargs bad = inl e ->
  (forward_exceptions = true -> ~ Exists raised outs) ->
  let r := schedule_workers USE_MULTIPROCESSING sched function forward_exceptions
             (good ++ bad :: rest) with_kwargs max_processes in
  fst r = UnpackError e /\
  started_pids (trace (snd r)) = seq 0 (length good) /\
  length (processes (snd r)) = Nat.min (length good) (Z.to_nat max_processes) /\
  (forall pid, In pid (PyDictN.keys (processes (snd r))) ->
               ~ In pid (joined_pids (trace (snd r)))).
Proof.
  intros Hm HY Hbad Hno r.
  destruct (Forall2_job_yields _ _ _ _ HY) as [HF Henv].
  destruct (job_procs_stop with_kwargs good bad rest e 0 HF Hbad) as [Hall Hlen].
  pose proof (run_window USE_MULTIPROCESSING sched function forward_exceptions
                with_kwargs max_processes (good ++ bad :: rest)) as H.
  fold r in H.
  destruct H as (started0 & st0 & Hi & _ & [rest0 Hpre] & Ho).
  rewrite Hall in Hpre, Ho.
  destruct (fst r) as [l|e'|e'| | |]; try contradiction.
  - exfalso. destruct Ho as (_ & -> & Hl & _).
    rewrite Hlen, length_app in Hl. simpl in Hl. lia.
  - exfalso. destruct Ho as (Hf & d & st1 & e0 & tb & _ & Hin & Hex & _).
    pose proof (success_envelopes_not_raised outs 0 (Hno Hf)) as Hs.
    rewrite <- Henv, Hpre, map_app, Forall_app, Forall_forall in Hs.
    destruct Hs as [Hs _].
    specialize (Hs d (Inv_pending_started _ _ _ _ _ _ Hi Hin)).
    unfold is_success in Hs. now rewrite Hex in Hs.
  - destruct Ho as (-> & -> & (_ & Hl) & job & Hn & Hu).
    rewrite Hlen in Hn, Hl.
    rewrite nth_error_app2, Nat.sub_diag in Hn by lia. injection Hn as <-.
    rewrite Hbad in Hu. injection Hu as <-.
    split; [reflexivity|]. split; [|split; [exact Hl|]].
    + rewrite (inv_started _ _ _ _ _ Hi), (inv_ids _ _ _ _ _ Hi).
      now rewrite Hlen.
    + intros pid Hk Hj.
      pose proof (Inv_pids_NoDup _ _ _ _ _ Hi) as Hnd. rewrite map_app in Hnd.
      apply (NoDup_app_disjoint _ _ pid Hnd).
      * now apply (inv_joined _ _ _ _ _ Hi).
      * eapply Permutation_in; [apply (inv_keys _ _ _ _ _ Hi)|exact Hk].
  - destruct Ho as (_ & Hle & _). lia.
Qed.

Lemma malformed_job_raises_and_abandons_workers_witness :
  let r := schedule_workers true lifo return_all false
             ([PyTuple [PyTuple [PyInt 0]; PyDict []];
               PyTuple [PyTuple [PyInt 1]; PyDict []];
               PyTuple [PyTuple [PyInt 2]; PyDict []]]
              ++ PyInt 7 :: [PyTuple [PyTuple [PyInt 4]; PyDict []]]) true 2 in
  fst r = UnpackError
            (Exn "TypeError" [PyStr "cannot unpack non-iterable int object"]) /\
  started_pids (trace (snd r)) = seq 0 3 /\
  length (processes (snd r)) = Nat.min 3 (Z.to_nat 2) /\
  (forall pid, In pid (PyDictN.keys (processes (snd r))) ->
               ~ In pid (joined_pids (trace (snd r)))).
Proof.
  apply (malformed_job_raises_and_abandons_workers true lifo return_all false
           true 2
           [PyTuple [PyTuple [PyInt 0]; PyDict []];
            PyTuple [PyTuple [PyInt 1]; PyDict []];
            PyTuple [PyTuple [PyInt 2]; PyDict []]]
           (PyInt 7) [PyTuple [PyTuple [PyInt 4]; PyDict []]]
           [Returns (PyTuple [PyTuple [PyInt 0]; PyDict []]);
            Returns (PyTuple [PyTuple [PyInt 1]; PyDict []]);
            Returns (PyTuple [PyTuple [PyInt 2]; PyDict []])]
           (Exn "TypeError" [PyStr "cannot unpack non-iterable int object"])).
  - lia.
  - repeat constructor; eexists; eexists; split; reflexivity.
  - reflexivity.
  - discriminate.
Defined.

(** X10: the window slides.  During a call that returns on [n] jobs under a
    limit [m], the number of handles in [processes] after each of its
    mutations is 1, 2, ..., min(n, m) while the window fills, then [m - 1]
    and [m] again for every further job (one collection, one admission),
    and at last min(n, m) - 1, ..., 1, 0 while the window drains. *)
Theorem window_fills_slides_and_drains USE_MULTIPROCESSING sched function
    forward_exceptions with_kwargs max_processes args_list l :
  fst (schedule_workers USE_MULTIPROCESSING sched function forward_exceptions
         args_list with_kwargs max_processes) = Returned l ->
  sizes (snd (schedule_workers USE_MULTIPROCESSING sched function
                forward_exceptions args_list with_kwargs max_processes))
  = window_sizes (Z.to_nat max_processes) (length args_list).
Proof.
  intros E.
  pose proof (run_window USE_MULTIPROCESSING sched function forward_exceptions
                with_kwargs max_processes args_list) as H.
  rewrite E in H.
  destruct H as (started0 & st0 & _ & (j & Hj & Hl & Hs) & _ & -> & _ & Hn & Hp & _).
  rewrite Hp in Hl. simpl in Hl. unfold window_sizes. rewrite Hs, Hn.
  do 2 f_equal. lia.
Qed.

Lemma window_fills_slides_and_drains_witness :
  sizes (snd (schedule_workers true lifo (crash_on 1) false (zip_range 5) false 2))
  = window_sizes (Z.to_nat 2) (length (zip_range 5)).
Proof.
  apply (window_fills_slides_and_drains true lifo (crash_on 1) false false 2
           (zip_range 5)
           [PyTuple [PyInt 2]; PyTuple [PyInt 3]; PyTuple [PyInt 4];
            PyTuple [PyInt 0]]).
  reflexivity.
Defined.

(** X11: a call blocks forever only under a limit of zero or less: it does so
    exactly when the limit is not positive and there is a first job that
    unpacks.  With a positive limit no receive waits on an empty queue with
    no worker to fill it. *)
Theorem blocks_only_without_positive_limit USE_MULTIPROCESSING sched function
    forward_exceptions with_kwargs max_processes args_list :
  fst (schedule_workers USE_MULTIPROCESSING sched function forward_exceptions
         args_list with_kwargs max_processes) = Blocked <->
  max_processes <= 0 /\
  exists job rest, args_list = job :: rest /\ unpackable with_kwargs job.
Proof.
  split.
  - intros E.
    pose proof (schedule_workers_spec USE_MULTIPROCESSING sched function
                  forward_exceptions with_kwargs max_processes args_list) as H.
    cbv zeta in H. rewrite E in H. destruct H as (? & ? & _ & _ & _ & Hm & _).
    split; [exact Hm|]. rewrite run_nonpositive in E by exact Hm.
    destruct args_list as [|job rest]; [discriminate|]. exists job, rest.
    split; [reflexivity|].
    destruct (unpack_job with_kwargs job) as [e|[a k]] eqn:Eu; [discriminate|].
    now exists a, k.
  - intros (Hm & job & rest & -> & a & k & Hu).
    rewrite run_nonpositive by exact Hm. now rewrite Hu.
Qed.

(** ** What a propagated failure leaves behind *)

Lemma fold_terminate_queue USE_MULTIPROCESSING (l : list (nat * proc)) : forall st,
  results_q (fold_left (fun s kv => terminate USE_MULTIPROCESSING (snd kv) s) l st)
  = results_q st.
Proof.
  induction l as [|kv l IH]; intros st; cbn [fold_left]; [reflexivity|].
  rewrite IH. unfold terminate. now destruct USE_MULTIPROCESSING.
Qed.

Lemma fold_terminate_fake (l : list (nat * proc)) : forall st,
  running (fold_left (fun s kv => terminate false (snd kv) s) l st) = running st.
Proof.
  induction l as [|kv l IH]; intros st; cbn [fold_left]; [reflexivity|].
  now rewrite IH.
Qed.

Lemma terminated_pids_terminates (l : list (nat * proc)) :
  terminated_pids (map (fun kv => EvTerminate (p_pid (snd kv))) l)
  = map (fun kv => p_pid (snd kv)) l.
Proof. induction l as [|kv l IH]; cbn; [reflexivity|]. now f_equal. Qed.

(** X12: when a call re-raises a failure, the handles that were asked to
    terminate are those of the workers started during the call, each once:
    the handles released before, by the [terminate] of [collect_result], and
    every handle still in [processes], by the loop over its items.  No
    worker that was started is left without a request to terminate. *)
Theorem propagated_failure_terminates_every_started_worker USE_MULTIPROCESSING
    sched function forward_exceptions with_kwargs max_processes args_list e' :
  fst (schedule_workers USE_MULTIPROCESSING sched function forward_exceptions
         args_list with_kwargs max_processes) = Propagated e' ->
  Permutation
    (terminated_pids (trace (snd (schedule_workers USE_MULTIPROCESSING sched
       function forward_exceptions args_list with_kwargs max_processes))))
    (started_pids (trace (snd (schedule_workers USE_MULTIPROCESSING sched
       function forward_exceptions args_list with_kwargs max_processes)))).
Proof.
  intros E.
  pose proof (run_release_log USE_MULTIPROCESSING sched function
                forward_exceptions with_kwargs max_processes args_list) as H.
  destruct (ended_trace _ _ _ _ _ _ _ _ _ _ _ H)
    as (started0 & st0 & Hi & (_ & Ht & _) & _ & _ & Htr).
  rewrite E in Htr. destruct Htr as (d & _ & _ & ->).
  rewrite terminated_pids_app, started_pids_app, Ht.
  cbn [terminated_pids started_pids flat_map app].
  fold (terminated_pids
          (map (fun kv => EvTerminate (p_pid (snd kv))) (processes st0))).
  fold (started_pids
          (map (fun kv => EvTerminate (p_pid (snd kv))) (processes st0))).
  rewrite (proj1 (proj2 (proj2 (proj2 (received_terminates _))))), app_nil_r.
  rewrite terminated_pids_terminates.
  assert (Hk : map (fun kv => p_pid (snd kv)) (processes st0)
               = PyDictN.keys (processes st0)).
  { unfold PyDictN.keys. apply map_ext_in. intros [k p] Hkp. cbn [fst snd].
    apply (inv_handles _ _ _ _ _ Hi k p Hkp). }
  rewrite Hk, (inv_keys _ _ _ _ _ Hi), <- map_app.
  rewrite (inv_started _ _ _ _ _ Hi), <- (map_rd_pid_envelope_of function).
  apply Permutation_map, (inv_all _ _ _ _ _ Hi).
Qed.

Lemma propagated_failure_terminates_every_started_worker_witness :
  Permutation
    (terminated_pids (trace (snd (schedule_workers true lifo (crash_on 3) true
       (zip_range 6) false 3))))
    (started_pids (trace (snd (schedule_workers true lifo (crash_on 3) true
       (zip_range 6) false 3)))).
Proof.
  apply (propagated_failure_terminates_every_started_worker true lifo
           (crash_on 3) true false 3 (zip_range 6)
           (add_args (Exn "CrashException" [PyStr "ouch!"])
              [PyStr "  File test_multiprocessing_scheduler.py, line 45, in crash"])).
  reflexivity.
Defined.

(** X13: under [FakeProcess], when a call re-raises a failure, the jobs of
    all the other handles of [processes] have already run, and their
    envelopes are left unread in the queue, one for each of these handles. *)
Theorem fake_process_failure_leaves_envelopes_unread sched function
    forward_exceptions with_kwargs max_processes args_list e' :
  fst (schedule_workers false sched function forward_exceptions
         args_list with_kwargs max_processes) = Propagated e' ->
  let st := snd (schedule_workers false sched function forward_exceptions
                   args_list with_kwargs max_processes) in
  exists succs d,
    received (trace st) = succs ++ [d] /\ is_success d = false /\
    running st = [] /\
    Permutation (PyDictN.keys (processes st))
                (rd_pid d :: map rd_pid (results_q st)).
Proof.
  intros E st.
  pose proof (run_fake_order sched function forward_exceptions with_kwargs
                max_processes args_list) as H.
  rewrite E in H. fold st in H.
  destruct H as (started0 & st0 & Hi & (Hr0 & _) & _ & _ & d & st1 & e & tb & Hg & _ & Hex & _ & Est).
  destruct (q_get_queue _ _ _ _ _ Hr0 Hg) as [Eq Hr1].
  destruct (q_get_Some _ _ _ _ _ Hg) as (_ & _ & _ & _ & Eps & _ & Etr & _).
  destruct (terminate_all_fields false (log (EvRecv d) st1)) as (Hp & _ & Ht).
  rewrite <- Est in Hp, Ht. cbn [processes trace log] in Hp, Ht.
  exists (received (trace st0)), d. split; [|split; [|split]].
  - rewrite Ht, !received_app, Etr. cbn [received flat_map app].
    now rewrite (proj1 (received_terminates _)), app_nil_r.
  - unfold is_success. now rewrite Hex.
  - rewrite Est. unfold terminate_all. now rewrite fold_terminate_fake.
  - rewrite Hp, Eps, Est. unfold terminate_all. rewrite fold_terminate_queue.
    cbn [results_q log]. rewrite (inv_keys _ _ _ _ _ Hi). unfold pending.
    now rewrite Hr0, app_nil_r, Eq.
Qed.

Lemma fake_process_failure_leaves_envelopes_unread_witness :
  let st := snd (schedule_workers false lifo (crash_on 1) true (zip_range 6)
                   false 3) in
  exists succs d,
    received (trace st) = succs ++ [d] /\ is_success d = false /\
    running st = [] /\
    Permutation (PyDictN.keys (processes st))
                (rd_pid d :: map rd_pid (results_q st)).
Proof.
  apply (fake_process_failure_leaves_envelopes_unread lifo (crash_on 1) true
           false 3 (zip_range 6)
           (add_args (Exn "CrashException" [PyStr "ouch!"])
              [PyStr "  File test_multiprocessing_scheduler.py, line 45, in crash"])).
  reflexivity.
Defined.

(** ** [fair_scheduler] against [multiprocessing_scheduler]

    Step by step, [fair_scheduler] does what [multiprocessing_scheduler] does
    on the isolated backend, on envelopes without the stack trace. *)

Lemma outcomes_agree_refl o :
  (forall e, o <> Propagated e) -> outcomes_agree o o.
Proof. destruct o; cbn; intros H; try reflexivity. now destruct (H e). Qed.

Lemma steps_agree_strip s :
  (forall e st, s <> Halt (Propagated e) st) -> steps_agree s (strip_step s).
Proof.
  destruct s as [st|o st]; cbn; intros H; [reflexivity|].
  split; [|reflexivity]. apply outcomes_agree_refl. intros e E. subst.
  now destruct (H e st).
Qed.

Section Fair.
Context (sched : nat -> nat).
Context (function : pyval -> pyval -> call_outcome).
Context (forward_exceptions : bool).

Lemma fair_run_target p q :
  FairScheduler.run_target function p (map strip q)
  = map strip (run_target function p q).
Proof.
  unfold FairScheduler.run_target, run_target, FairScheduler._proc_f, _proc_f,
    behaviour_of.
  destruct (function _ _); cbn [fst]; now rewrite map_app.
Qed.

Lemma fair_start p st :
  FairScheduler.start p (strip_state st) = strip_state (start true function p st).
Proof.
  destruct st. unfold FairScheduler.start, start, strip_state. cbn.
  now rewrite map_app.
Qed.

Lemma fair_terminate p st :
  FairScheduler.terminate p (strip_state st)
  = strip_state (terminate true p st).
Proof.
  destruct st. unfold FairScheduler.terminate, terminate, strip_state. cbn.
  now rewrite map_app.
Qed.

Lemma fair_join p st :
  FairScheduler.join function p (strip_state st)
  = strip_state (join true function p st).
Proof.
  destruct st as [ps q rs run c tr].
  unfold FairScheduler.join, join, FairScheduler.is_running, is_running,
    FairScheduler.log, log, strip_state, FairScheduler.with_running,
    with_running, FairScheduler.with_results_q, with_results_q,
    FairScheduler.remove_pid, remove_pid.
  cbn [andb processes results_q results running clock trace
       FairScheduler.processes FairScheduler.results_q FairScheduler.results
       FairScheduler.running FairScheduler.clock FairScheduler.trace].
  destruct (existsb _ run);
    cbn [processes results_q results running clock trace];
    rewrite ?fair_run_target, map_app; reflexivity.
Qed.

Lemma fair_q_get st :
  FairScheduler.q_get sched function (strip_state st)
  = option_map (fun r => (strip (fst r), strip_state (snd r)))
               (q_get sched function st).
Proof.
  destruct st as [ps q rs run c tr]. unfold FairScheduler.q_get, q_get.
  cbn [strip_state FairScheduler.results_q FairScheduler.running
       FairScheduler.clock results_q running clock processes results trace].
  destruct q as [|d q]; [|reflexivity]. cbn [map].
  destruct run as [|p0 l]; [reflexivity|]. cbv zeta.
  change (@nil FairScheduler.retdict) with (map strip []) at 1.
  rewrite fair_run_target, run_target_put. reflexivity.
Qed.

Lemma fair_new_process pid args kwargs st :
  FairScheduler.new_process pid args kwargs (strip_state st)
  = strip_state (new_process true function pid args kwargs st).
Proof.
  unfold FairScheduler.new_process, new_process. rewrite fair_start.
  destruct (start true function _ st). unfold strip_state. cbn.
  now rewrite map_app.
Qed.

Lemma fair_fold_terminate (l : list (nat * proc)) : forall st,
  fold_left (fun s kv => FairScheduler.terminate (snd kv) s) l (strip_state st)
  = strip_state (fold_left (fun s kv => terminate true (snd kv) s) l st).
Proof.
  induction l as [|kv l IH]; intros st; cbn [fold_left]; [reflexivity|].
  now rewrite fair_terminate, IH.
Qed.

Lemma fair_terminate_all st :
  FairScheduler.terminate_all (strip_state st)
  = strip_state (terminate_all true st).
Proof.
  unfold FairScheduler.terminate_all, terminate_all.
  now rewrite <- fair_fold_terminate.
Qed.

Lemma fair_release pid st :
  FairScheduler.release function pid (strip_state st)
  = strip_step (release true function pid st).
Proof.
  unfold FairScheduler.release, release.
  change (FairScheduler.processes (strip_state st)) with (processes st).
  destruct (PyDictN.get (processes st) pid) as [p|]; [|reflexivity].
  rewrite fair_join.
  change (FairScheduler.processes (strip_state (join true function p st)))
    with (processes (join true function p st)).
  destruct (PyDictN.get (processes (join true function p st)) pid) as [p'|];
    [|reflexivity].
  rewrite fair_terminate.
  change (FairScheduler.processes
            (strip_state (terminate true p' (join true function p st))))
    with (processes (terminate true p' (join true function p st))).
  destruct (PyDictN.del _ pid) as [d|]; [|reflexivity].
  destruct (terminate true p' _). unfold strip_step, strip_state. cbn.
  now rewrite map_app.
Qed.

Lemma release_not_propagated pid st e st' :
  release true function pid st <> Halt (Propagated e) st'.
Proof.
  unfold release.
  destruct (PyDictN.get (processes st) pid); [|discriminate].
  destruct (PyDictN.get _ pid); [|discriminate].
  destruct (PyDictN.del _ pid); discriminate.
Qed.

Context (truthy : exn -> bool).
Hypothesis function_errors_truthy : errors_truthy truthy function.

Lemma envelope_of_truthy p : envelope_truthy truthy (envelope_of function p).
Proof.
  unfold envelope_truthy, envelope_of, envelope_for. intros e tb.
  destruct (function (p_args p) (p_kwargs p)) as [v|e0 tb0] eqn:E;
    cbn [rd_exception]; [discriminate|].
  intros H. injection H as -> _. exact (function_errors_truthy _ _ _ _ E).
Qed.

Lemma q_get_truthy st d st1 :
  queue_truthy truthy st -> q_get sched function st = Some (d, st1) ->
  envelope_truthy truthy d /\ queue_truthy truthy st1.
Proof.
  unfold queue_truthy, q_get. intros Hq.
  destruct (results_q st) as [|d0 q] eqn:Eq.
  - destruct (running st) as [|p0 l]; [discriminate|]. cbv zeta.
    rewrite run_target_put. cbn [app]. intros H. injection H as <- <-.
    split; [apply envelope_of_truthy | constructor].
  - intros H. injection H as <- <-. inversion Hq; subst. split; assumption.
Qed.

Lemma join_truthy p st :
  queue_truthy truthy st -> queue_truthy truthy (join true function p st).
Proof.
  unfold queue_truthy, join. intros Hq. cbn [andb].
  destruct (is_running _ _); [|exact Hq].
  cbn [with_running with_results_q results_q log]. rewrite run_target_put.
  apply Forall_app. split; [exact Hq|].
  constructor; [apply envelope_of_truthy | constructor].
Qed.

Lemma release_truthy pid st st' :
  queue_truthy truthy st -> release true function pid st = Next st' ->
  queue_truthy truthy st'.
Proof.
  unfold release. intros Hq.
  destruct (PyDictN.get (processes st) pid) as [p|]; [|discriminate].
  destruct (PyDictN.get _ pid) as [p'|]; [|discriminate].
  destruct (PyDictN.del _ pid) as [d|]; [|discriminate].
  intros H. injection H as <-. exact (join_truthy p st Hq).
Qed.

Lemma collect_result_truthy st st' :
  queue_truthy truthy st ->
  collect_result true sched function forward_exceptions st = Next st' ->
  queue_truthy truthy st'.
Proof.
  unfold collect_result. intros Hq.
  destruct (q_get sched function st) as [[d st1]|] eqn:E; [|discriminate].
  destruct (q_get_truthy _ _ _ Hq E) as [_ Hq1].
  destruct (rd_exception d) as [[e tb]|].
  - destruct forward_exceptions; [discriminate|].
    apply release_truthy. exact Hq1.
  - apply release_truthy. exact Hq1.
Qed.

Lemma new_process_truthy pid args kwargs st :
  queue_truthy truthy st ->
  queue_truthy truthy (new_process true function pid args kwargs st).
Proof. intros Hq. exact Hq. Qed.

Lemma fair_collect_result st :
  queue_truthy truthy st ->
  steps_agree (collect_result true sched function forward_exceptions st)
    (FairScheduler.collect_result truthy sched function forward_exceptions
       (strip_state st)).
Proof.
  intros Hq.
  unfold FairScheduler.collect_result, collect_result. rewrite fair_q_get.
  destruct (q_get sched function st) as [[d st1]|] eqn:E; cbn [option_map fst snd].
  2:{ now split. }
  destruct (q_get_truthy _ _ _ Hq E) as [Hd _].
  assert (Hlog : FairScheduler.log (FairScheduler.EvRecv (strip d)) (strip_state st1)
                 = strip_state (log (EvRecv d) st1)).
  { destruct st1. unfold strip_state. cbn. now rewrite map_app. }
  rewrite Hlog. unfold strip at 1. cbn [FairScheduler.rd_exception].
  unfold envelope_truthy in Hd.
  destruct (rd_exception d) as [[e tb]|].
  - rewrite (Hd e tb eq_refl). cbn [negb].
    destruct forward_exceptions.
    + rewrite fair_terminate_all. split; [now exists tb | reflexivity].
    + change (FairScheduler.rd_pid (strip d)) with (rd_pid d).
      rewrite fair_release. apply steps_agree_strip.
      intros e0 st0. apply release_not_propagated.
  - change (FairScheduler.rd_pid (strip d)) with (rd_pid d).
    change (FairScheduler.rd_result (strip d)) with (rd_result d).
    assert (Hres : FairScheduler.with_results
                     (FairScheduler.results (strip_state (log (EvRecv d) st1))
                      ++ [rd_result d]) (strip_state (log (EvRecv d) st1))
                   = strip_state (with_results
                       (results (log (EvRecv d) st1) ++ [rd_result d])
                       (log (EvRecv d) st1))) by reflexivity.
    rewrite Hres, fair_release. apply steps_agree_strip.
    intros e0 st0. apply release_not_propagated.
Qed.

Lemma for_jobs_truthy with_kwargs max_processes jobs : forall pid st st',
  queue_truthy truthy st ->
  for_jobs true sched function forward_exceptions with_kwargs max_processes
           pid jobs st = Next st' ->
  queue_truthy truthy st'.
Proof.
  induction jobs as [|job rest IH]; intros pid st st' Hq; cbn [for_jobs].
  { intros H. now injection H as <-. }
  destruct (unpack_job with_kwargs job) as [e|[args kwargs]]; [discriminate|].
  destruct (Z.of_nat (length (processes st)) >=? max_processes).
  - destruct (collect_result true sched function forward_exceptions st)
      as [st1|o st1] eqn:E; [|discriminate].
    apply IH. apply new_process_truthy. exact (collect_result_truthy _ _ Hq E).
  - apply IH. apply new_process_truthy. exact Hq.
Qed.

Lemma fair_for_jobs with_kwargs max_processes jobs : forall pid st,
  queue_truthy truthy st ->
  steps_agree
    (for_jobs true sched function forward_exceptions with_kwargs max_processes
              pid jobs st)
    (FairScheduler.for_jobs truthy sched function forward_exceptions with_kwargs
       max_processes pid jobs (strip_state st)).
Proof.
  induction jobs as [|job rest IH]; intros pid st Hq;
    cbn [for_jobs FairScheduler.for_jobs]; [reflexivity|].
  destruct (unpack_job with_kwargs job) as [e|[args kwargs]]; [now split|].
  change (FairScheduler.processes (strip_state st)) with (processes st).
  destruct (Z.of_nat (length (processes st)) >=? max_processes).
  - pose proof (fair_collect_result st Hq) as Hc.
    pose proof (collect_result_truthy st) as Hq1.
    destruct (collect_result true sched function forward_exceptions st)
      as [st1|o st1];
      destruct (FairScheduler.collect_result truthy sched function
                  forward_exceptions (strip_state st)) as [st1'|o' st1'];
      try contradiction; [|exact Hc].
    cbn in Hc. subst st1'. rewrite fair_new_process. apply IH.
    apply new_process_truthy. exact (Hq1 st1 Hq eq_refl).
  - rewrite fair_new_process. apply IH. apply new_process_truthy. exact Hq.
Qed.

Lemma fair_drain fuel : forall st,
  queue_truthy truthy st ->
  steps_agree
    (drain true sched function forward_exceptions fuel st)
    (FairScheduler.drain truthy sched function forward_exceptions fuel
       (strip_state st)).
Proof.
  induction fuel as [|fuel IH]; intros st Hq; cbn [drain FairScheduler.drain];
    change (FairScheduler.processes (strip_state st)) with (processes st);
    destruct (processes st) as [|kv ps]; try reflexivity; [now split|].
  pose proof (fair_collect_result st Hq) as Hc.
  pose proof (collect_result_truthy st) as Hq1.
  destruct (collect_result true sched function forward_exceptions st)
    as [st1|o st1];
    destruct (FairScheduler.collect_result truthy sched function
                forward_exceptions (strip_state st)) as [st1'|o' st1'];
    try contradiction; [|exact Hc].
  cbn in Hc. subst st1'. apply IH. exact (Hq1 st1 Hq eq_refl).
Qed.

Lemma fair_schedule_workers args_list with_kwargs max_processes :
  outcomes_agree
    (fst (schedule_workers true sched function forward_exceptions
            args_list with_kwargs max_processes))
    (fst (FairScheduler.schedule_workers truthy sched function
            forward_exceptions args_list with_kwargs max_processes)) /\
  snd (FairScheduler.schedule_workers truthy sched function forward_exceptions
         args_list with_kwargs max_processes)
  = strip_state (snd (schedule_workers true sched function forward_exceptions
                        args_list with_kwargs max_processes)).
Proof.
  unfold FairScheduler.schedule_workers, schedule_workers.
  assert (Hq0 : queue_truthy truthy initial_state) by constructor.
  pose proof (fair_for_jobs with_kwargs max_processes args_list 0 initial_state
                Hq0) as Hf.
  pose proof (for_jobs_truthy with_kwargs max_processes args_list 0
                initial_state) as Hq1.
  change (strip_state initial_state) with FairScheduler.initial_state in Hf.
  destruct (for_jobs _ _ _ _ _ _ _ _ _) as [st|o st];
    destruct (FairScheduler.for_jobs _ _ _ _ _ _ _ _ _) as [st'|o' st'];
    try contradiction; [|exact Hf].
  cbn in Hf. subst st'.
  change (FairScheduler.processes (strip_state st)) with (processes st).
  pose proof (fair_drain (length (processes st)) st (Hq1 st Hq0 eq_refl)) as Hd.
  destruct (drain _ _ _ _ _ st) as [st1|o st1];
    destruct (FairScheduler.drain _ _ _ _ _ _) as [st1'|o' st1'];
    try contradiction; [|exact Hd].
  cbn in Hd. subst st1'. now split.
Qed.
End Fair.

(** An error object that is not true is taken for a success by
    [fair_scheduler]: its envelope's [result], which is [None], is appended
    and nothing is raised. *)
Lemma fair_collect_result_false_error sched function forward_exceptions
    st d q e :
  FairScheduler.results_q st = d :: q ->
  FairScheduler.rd_exception d = Some e ->
  forall truthy, truthy e = false ->
  FairScheduler.collect_result truthy sched function forward_exceptions st
  = FairScheduler.release function (FairScheduler.rd_pid d)
      (FairScheduler.with_results
         (FairScheduler.results st ++ [FairScheduler.rd_result d])
         (FairScheduler.log (FairScheduler.EvRecv d)
            (FairScheduler.tick (FairScheduler.with_results_q q st)))).
Proof.
  intros Hq He truthy Ht. unfold FairScheduler.collect_result, FairScheduler.q_get.
  rewrite Hq, He, Ht. reflexivity.
Qed.

(** X14: if every error that the function raises is a true object (as every
    error is whose class does not define [__bool__] or [__len__]), then for
    the same schedule, function, jobs and configuration,
    [fair_scheduler.schedule_workers] ends as
    [multiprocessing_scheduler.schedule_workers] does on the isolated
    backend: it returns the same list, blocks alike, raises the same
    unpacking error, and where the latter raises a worker's error with the
    stack trace appended to its [args], the former raises that error without
    it; their last states are the same up to the stack traces. *)
Theorem fair_scheduler_agrees truthy sched function forward_exceptions
    args_list with_kwargs max_processes :
  errors_truthy truthy function ->
  outcomes_agree
    (fst (schedule_workers true sched function forward_exceptions
            args_list with_kwargs max_processes))
    (fst (FairScheduler.schedule_workers truthy sched function
            forward_exceptions args_list with_kwargs max_processes)) /\
  snd (FairScheduler.schedule_workers truthy sched function forward_exceptions
         args_list with_kwargs max_processes)
  = strip_state (snd (schedule_workers true sched function forward_exceptions
                        args_list with_kwargs max_processes)).
Proof. intros Ht. now apply fair_schedule_workers. Qed.

Lemma fair_scheduler_agrees_witness :
  errors_truthy (fun _ => true) (crash_on 2) /\
  outcomes_agree
    (fst (schedule_workers true lifo (crash_on 2) true (zip_range 4) false 2))
    (fst (FairScheduler.schedule_workers (fun _ => true) lifo (crash_on 2)
            true (zip_range 4) false 2)) /\
  snd (FairScheduler.schedule_workers (fun _ => true) lifo (crash_on 2) true
         (zip_range 4) false 2)
  = strip_state (snd (schedule_workers true lifo (crash_on 2) true
                        (zip_range 4) false 2)).
Proof.
  split; [intros args kwargs e tb _; reflexivity|].
  apply (fair_scheduler_agrees (fun _ => true) lifo (crash_on 2) true
           (zip_range 4) false 2).
  intros args kwargs e tb _. reflexivity.
Defined.



(** X16: keyword arguments reach the function with their job.  With
    [with_kwargs] set and the test suite's [return_all], which returns the
    pair of the arguments it was called with, a call on jobs that are pairs
    of an argument tuple and a keyword dictionary returns these very pairs,
    each once, in some order. *)
Theorem keyword_arguments_stay_with_their_job USE_MULTIPROCESSING sched
    forward_exceptions max_processes args_list :
  1 <= max_processes ->
  Forall (fun job => exists xs kvs, job = PyTuple [PyTuple xs; PyDict kvs])
         args_list ->
  exists l,
    fst (schedule_workers USE_MULTIPROCESSING sched return_all
           forward_exceptions args_list true max_processes) = Returned l /\
    Permutation l args_list.
Proof.
  intros Hm Hjobs.
  assert (HY : Forall2 (job_yields return_all true) args_list
                       (map Returns args_list)).
  { induction Hjobs as [|job jobs (xs & kvs & ->) _ IH]; cbn [map]; constructor;
      [|exact IH].
    exists (PyTuple xs), (PyDict kvs). now split. }
  destruct (Forall2_job_yields _ _ _ _ HY) as [HF Henv].
  destruct (run_kind USE_MULTIPROCESSING sched return_all forward_exceptions
              true max_processes args_list Hm) as [_ [_ Hk]].
  assert (Hret : kind_of (fst (schedule_workers USE_MULTIPROCESSING sched
             return_all forward_exceptions args_list true max_processes))
           = KReturns).
  { apply Hk. split; [exact HF|]. intros _. rewrite Henv.
    apply success_envelopes_Returns. }
  destruct (fst (schedule_workers _ _ _ _ _ _ _)) as [l| | | | |] eqn:E;
    try discriminate Hret.
  exists l. split; [reflexivity|].
  pose proof (returned_payloads _ _ _ _ _ _ _ _ _ E HY) as Hperm.
  now rewrite returned_values_Returns in Hperm.
Qed.

Lemma keyword_arguments_stay_with_their_job_witness :
  exists l,
    fst (schedule_workers true lifo return_all true
           [PyTuple [PyTuple [PyInt 0]; PyDict [("thekwarg", PyInt 0)]];
            PyTuple [PyTuple [PyInt 1]; PyDict [("thekwarg", PyInt 1)]];
            PyTuple [PyTuple [PyInt 2]; PyDict [("thekwarg", PyInt 2)]]]
           true 2) = Returned l /\
    Permutation l
      [PyTuple [PyTuple [PyInt 0]; PyDict [("thekwarg", PyInt 0)]];
       PyTuple [PyTuple [PyInt 1]; PyDict [("thekwarg", PyInt 1)]];
       PyTuple [PyTuple [PyInt 2]; PyDict [("thekwarg", PyInt 2)]]].
Proof.
  apply (keyword_arguments_stay_with_their_job true lifo true 2).
  - lia.
  - repeat constructor; eexists; eexists; reflexivity.
Defined.
